(** * youtube_data_collector.py: a shallow embedding of [YouTubeDataCollector]

    The collector is a linear pipeline: a paginated search
    ([search_videos_by_genre]), a batched detail retrieval
    ([get_video_details]) that enriches every item with its transcript
    ([get_video_captions]), and an export step ([collect_data]).

    The remote services (the search and videos endpoints of the platform
    client, the transcript library, [isodate], the clock) are black boxes of
    the program.  They are modelled as a record of response functions
    ([collaborators]); every call the program makes is recorded, in program
    order, in a trace of [event]s, next to the delays and the console output.
    Python exceptions are values of [exn]; a computation is a function from
    the interpreter [state] to an [outcome] and the state it leaves behind, so
    that what was appended or printed before an exception is kept, as in
    Python. *)

From Stdlib Require Import List ZArith NArith Bool Arith Lia String Ascii.
From Stdlib Require Import DecimalString.
Import ListNotations.


(** ** Python strings

    A [str] is a sequence of Unicode code points. *)

Definition char := N.
Definition str := list char.

Definition py (s : string) : str := map N_of_ascii (list_ascii_of_string s).

(** [sep.join(parts)] *)
Fixpoint join (sep : str) (parts : list str) : str :=
  match parts with
  | [] => []
  | p :: rest =>
      match rest with
      | [] => p
      | _ :: _ => p ++ sep ++ join sep rest
      end
  end.

(** Truth value of an optional string: [None] and [""] are false. *)
Definition truthy (s : option str) : bool :=
  match s with
  | Some (_ :: _) => true
  | _ => false
  end.

(** [len(xs)] as a Python integer. *)
Definition len {A} (xs : list A) : Z := Z.of_nat (List.length xs).

(** [xs[i : j]] for [0 <= i <= j]. *)
Definition slice {A} (xs : list A) (i j : nat) : list A :=
  firstn (j - i) (skipn i xs).

(** [range(start, stop, step)] for a positive step, with [fuel] bounding the
    number of elements. *)
Fixpoint range_from (fuel start stop step : nat) : list nat :=
  match fuel with
  | O => []
  | S fuel' =>
      if start <? stop then start :: range_from fuel' (start + step) stop step
      else []
  end.

Definition range (start stop step : nat) : list nat :=
  range_from stop start stop step.

(** ** Exceptions and outcomes *)

(** The exceptions the program can meet; all are subclasses of [Exception].
    [HttpError] is the one the search loop handles on its own. *)
Inductive exn :=
| HttpError (status : Z) (content : str)
| KeyError (key : str)
| OtherError (msg : str).

Definition is_HttpError (e : exn) : bool :=
  match e with HttpError _ _ => true | _ => false end.

(** What a collaborator call gives back: a value or a raised exception. *)
Definition result (A : Type) := (exn + A)%type.

Inductive outcome (A : Type) :=
| Val (a : A)
| Exc (e : exn)
| OutOfFuel.

Arguments Val {A} a.
Arguments Exc {A} e.
Arguments OutOfFuel {A}.

(** ** Data exchanged with the collaborators *)

(** A value that is a string when the platform sent it and the integer
    default otherwise ([dict.get(key, 0)]). *)
Inductive pyval :=
| PyStr (s : str)
| PyInt (z : Z).

(** Search endpoint. *)
Record search_request := {
  q : str;
  part : str;
  type_ : str;
  maxResults : Z;
  pageToken : option str;
  order : str;
  regionCode : option str;
  relevanceLanguage : str
}.

(** [item["id"]["videoId"]]; an absent key is [None]. *)
Record search_item := { item_id : option (option str) }.

Record search_response := {
  search_items : option (list search_item);
  nextPageToken : option str
}.

(** Videos (details) endpoint. *)
Record videos_request := {
  videos_part : str;
  videos_id : str
}.

Record snippet := {
  title : option str;
  description : option str;
  channelTitle : option str;
  tags : option (list str);
  categoryId : option str;
  publishedAt : option str
}.

Record content_details := { duration : option str }.

Record statistics_t := {
  viewCount : option str;
  commentCount : option str
}.

Record video_item := {
  id : option str;
  snippet_of : option snippet;
  contentDetails : option content_details;
  statistics : option statistics_t
}.

Record videos_response := { videos_items : option (list video_item) }.

(** Transcript library: the objects it hands out, as records of what their
    methods return. *)
Record caption_entry := { text : option str }.

Record Transcript := { fetch : result (list caption_entry) }.

Record TranscriptList := {
  find_transcript : list str -> result Transcript;
  find_manually_created_transcript : option (list str) -> result Transcript
}.

(** The dictionary [video_info], one per item. *)
Record VideoRecord := {
  Video_URL : str;
  Title : str;
  Description : str;
  Channel_Title : str;
  Keyword_Tags : str;
  YouTube_Video_Category : str;
  Video_Published_at : str;
  Video_Duration : str;
  View_Count : pyval;
  Comment_Count : pyval;
  Captions_Available : bool;
  Caption_Text : str
}.

(** ** Effects *)

Inductive message :=
| MsgSearching (max_results : Z)
| MsgGenre (genre : str)
| MsgNoMoreVideos
| MsgNoVideosInResponse
| MsgSearchHttpError (status : Z) (content : str)
| MsgTotalFound (n : Z)
| MsgSearchError (e : exn)
| MsgGettingDetails (n : Z)
| MsgBatchError (e : exn)
| MsgDetailsError (e : exn)
| MsgStarting
| MsgNoVideosFound
| MsgNoDetails
| MsgCompleted
| MsgTotalProcessed (n : Z)
| MsgTimeTaken
| MsgSavedTo (path : str)
| MsgCollectError (e : exn).

Inductive event :=
| Printed (m : message)
| PbarOpen (total : Z) (desc : str)
| PbarUpdate (n : Z)
| PbarClose
| SearchCall (r : search_request)
| VideosCall (r : videos_request)
| ListTranscripts (video_id : str)
| FindTranscript (language_codes : list str)
| FindManuallyCreated (language_codes : option (list str))
| FetchTranscript
| Sleep (milliseconds : Z)
| Clock
| Makedirs (path : str)
| ToCsv (path : str) (rows : list VideoRecord).

(** The collaborators.  The two platform endpoints are given the number of
    calls already made to them, so a response may change from one call to
    the next; the transcript library answers by video identifier. *)
Record collaborators := {
  search_list_execute : nat -> search_request -> result search_response;
  videos_list_execute : nat -> videos_request -> result videos_response;
  list_transcripts : str -> result TranscriptList;
  (** [str(isodate.parse_duration(s))] *)
  parse_duration_str : str -> result str;
  (** [datetime.now().strftime('%Y%m%d_%H%M%S')] *)
  now_stamp : str;
  (** the separator [os.path.join] puts between a directory and a file *)
  os_sep : str;
  (** [os.makedirs(path, exist_ok=True)] and [df.to_csv(path, ...)] *)
  makedirs : str -> result unit;
  to_csv : str -> list VideoRecord -> result unit
}.

(** ** Interpreter state and the computation monad *)

Record state := {
  trace : list event;
  search_calls : nat;
  videos_calls : nat;
  (** the list objects [video_ids] and [video_data] the loops append to *)
  video_ids : list str;
  video_data : list VideoRecord
}.

Definition init : state :=
  {| trace := []; search_calls := 0; videos_calls := 0;
     video_ids := []; video_data := [] |}.

Definition M (A : Type) := state -> outcome A * state.

Definition ret {A} (a : A) : M A := fun st => (Val a, st).

Definition bind {A B} (m : M A) (k : A -> M B) : M B :=
  fun st =>
    match m st with
    | (Val a, st') => k a st'
    | (Exc e, st') => (Exc e, st')
    | (OutOfFuel, st') => (OutOfFuel, st')
    end.

Definition raise {A} (e : exn) : M A := fun st => (Exc e, st).

Definition diverge {A} : M A := fun st => (OutOfFuel, st).

(** [try: body except <catches>: handler] *)
Definition try_except {A} (body : M A) (catches : exn -> bool)
    (handler : exn -> M A) : M A :=
  fun st =>
    match body st with
    | (Exc e, st') => if catches e then handler e st' else (Exc e, st')
    | r => r
    end.

Definition any_Exception (e : exn) : bool := true.

Declare Scope py_scope.
Delimit Scope py_scope with py_.
Notation "x <- m ;; k" := (bind m (fun x => k))
  (at level 61, m at next level, right associativity) : py_scope.
Notation "m ;; k" := (bind m (fun _ => k))
  (at level 61, right associativity) : py_scope.
Local Open Scope py_scope.

Definition emit (ev : event) : M unit :=
  fun st =>
    (Val tt, {| trace := trace st ++ [ev];
                search_calls := search_calls st;
                videos_calls := videos_calls st;
                video_ids := video_ids st;
                video_data := video_data st |}).

Definition print (m : message) : M unit := emit (Printed m).

(** Lifting a collaborator's answer: an exception it raised is raised here. *)
Definition lift {A} (r : result A) : M A :=
  match r with
  | inl e => raise e
  | inr a => ret a
  end.

(** [d[key]]: [KeyError] when the key is absent. *)
Definition getitem {A} (key : string) (field : option A) : M A :=
  match field with
  | Some a => ret a
  | None => raise (KeyError (py key))
  end.

(** [for x in xs: body(x)] *)
Fixpoint for_each {A} (xs : list A) (body : A -> M unit) : M unit :=
  match xs with
  | [] => ret tt
  | x :: rest => body x ;; for_each rest body
  end.

Definition get_video_ids : M (list str) := fun st => (Val (video_ids st), st).
Definition get_video_data : M (list VideoRecord) :=
  fun st => (Val (video_data st), st).

Definition set_video_ids (l : list str) : M unit :=
  fun st =>
    (Val tt, {| trace := trace st;
                search_calls := search_calls st;
                videos_calls := videos_calls st;
                video_ids := l;
                video_data := video_data st |}).

Definition set_video_data (l : list VideoRecord) : M unit :=
  fun st =>
    (Val tt, {| trace := trace st;
                search_calls := search_calls st;
                videos_calls := videos_calls st;
                video_ids := video_ids st;
                video_data := l |}).

(** ** The collector *)

Section Collector.

Variable api : collaborators.

(** [c.isalnum()] beyond ASCII is decided by the Unicode character database
    of the interpreter. *)
Variable unicode_isalnum : char -> bool.

(** [self.youtube.search().list(...).execute()] *)
Definition search_execute (r : search_request) : M search_response :=
  fun st =>
    let st' := {| trace := trace st ++ [SearchCall r];
                  search_calls := S (search_calls st);
                  videos_calls := videos_calls st;
                  video_ids := video_ids st;
                  video_data := video_data st |} in
    lift (search_list_execute api (search_calls st) r) st'.

(** [self.youtube.videos().list(...).execute()] *)
Definition videos_execute (r : videos_request) : M videos_response :=
  fun st =>
    let st' := {| trace := trace st ++ [VideosCall r];
                  search_calls := search_calls st;
                  videos_calls := S (videos_calls st);
                  video_ids := video_ids st;
                  video_data := video_data st |} in
    lift (videos_list_execute api (videos_calls st) r) st'.

(** *** get_video_captions *)

(** [[entry["text"] for entry in caption_data]] *)
Fixpoint entry_texts (caption_data : list caption_entry) : M (list str) :=
  match caption_data with
  | [] => ret []
  | entry :: rest =>
      t <- getitem "text" (text entry) ;;
      ts <- entry_texts rest ;;
      ret (t :: ts)
  end.

Definition get_video_captions (video_id : str) : M (bool * str) :=
  try_except
    (emit (ListTranscripts video_id) ;;
     transcript_list <- lift (list_transcripts api video_id) ;;
     transcript <-
       try_except
         (emit (FindTranscript [py "en"]) ;;
          lift (find_transcript transcript_list [py "en"]))
         any_Exception
         (fun _ =>
            emit (FindManuallyCreated None) ;;
            lift (find_manually_created_transcript transcript_list None)) ;;
     emit FetchTranscript ;;
     caption_data <- lift (fetch transcript) ;;
     texts <- entry_texts caption_data ;;
     let full_text := join (py " ") texts in
     ret (true, full_text))
    any_Exception
    (fun _ => ret (false, [])).

(** *** search_videos_by_genre *)

Definition append_video_id (v : str) : M unit :=
  fun st =>
    (Val tt, {| trace := trace st;
                search_calls := search_calls st;
                videos_calls := videos_calls st;
                video_ids := video_ids st ++ [v];
                video_data := video_data st |}).

(** How one turn of the [while] loop ends: by [break], or by reaching the end
    of the body with the cursor for the next turn. *)
Inductive loop_exit :=
| Break
| NextTurn (next_page_token : option str).

(** The body of [for item in search_response["items"]]. *)
Definition search_item_body (item : search_item) : M unit :=
  item_id <- getitem "id" (item_id item) ;;
  videoId <- getitem "videoId" item_id ;;
  append_video_id videoId ;;
  emit (PbarUpdate 1).

Definition search_turn (genre : str) (max_results : Z)
    (next_page_token : option str) : M loop_exit :=
  try_except
    (video_ids <- get_video_ids ;;
     search_response <-
       search_execute
         {| q := genre;
            part := py "id";
            type_ := py "video";
            maxResults := Z.min 50 (max_results - len video_ids);
            pageToken := next_page_token;
            order := py "viewCount";
            regionCode := None;
            relevanceLanguage := py "" |} ;;
     match search_items search_response with
     | Some items =>
         for_each items search_item_body ;;
         video_ids <- get_video_ids ;;
         if (len video_ids >=? max_results)%Z then ret Break
         else
           let next_page_token := nextPageToken search_response in
           if negb (truthy next_page_token)
           then print MsgNoMoreVideos ;; ret Break
           else ret (NextTurn next_page_token)
     | None =>
         print MsgNoVideosInResponse ;; ret Break
     end)
    is_HttpError
    (fun e =>
       match e with
       | HttpError status content => print (MsgSearchHttpError status content)
       | _ => ret tt
       end ;;
       ret Break).

(** [while len(video_ids) < max_results: ...]; [fuel] bounds the number of
    turns. *)
Fixpoint search_while (fuel : nat) (genre : str) (max_results : Z)
    (next_page_token : option str) : M unit :=
  video_ids <- get_video_ids ;;
  if (len video_ids <? max_results)%Z then
    match fuel with
    | O => diverge
    | S fuel' =>
        exit <- search_turn genre max_results next_page_token ;;
        match exit with
        | Break => ret tt
        | NextTurn next_page_token =>
            search_while fuel' genre max_results next_page_token
        end
    end
  else ret tt.

Definition search_videos_by_genre (fuel : nat) (genre : str)
    (max_results : Z) : M (list str) :=
  set_video_ids [] ;;
  try_except
    (print (MsgSearching max_results) ;;
     print (MsgGenre genre) ;;
     emit (PbarOpen max_results (py "Collecting video IDs")) ;;
     search_while fuel genre max_results None ;;
     emit PbarClose ;;
     video_ids <- get_video_ids ;;
     print (MsgTotalFound (len video_ids)) ;;
     ret video_ids)
    any_Exception
    (fun e => print (MsgSearchError e) ;; ret []).

(** *** get_video_details *)

Definition append_video_data (r : VideoRecord) : M unit :=
  fun st =>
    (Val tt, {| trace := trace st;
                search_calls := search_calls st;
                videos_calls := videos_calls st;
                video_ids := video_ids st;
                video_data := video_data st ++ [r] |}).

(** [d.get(key, 0)] on a field sent as a string. *)
Definition get_or_zero (field : option str) : pyval :=
  match field with
  | Some s => PyStr s
  | None => PyInt 0
  end.

(** [d.get("tags", [])] *)
Definition get_or_empty (field : option (list str)) : list str :=
  match field with
  | Some l => l
  | None => []
  end.

(** The dictionary display [video_info = {...}]; its values are evaluated in
    the order they are written. *)
Definition video_info (item : video_item) (has_captions : bool)
    (caption_text : str) : M VideoRecord :=
  item_id <- getitem "id" (id item) ;;
  sn <- getitem "snippet" (snippet_of item) ;;
  title <- getitem "title" (title sn) ;;
  description <- getitem "description" (description sn) ;;
  channelTitle <- getitem "channelTitle" (channelTitle sn) ;;
  let keyword_tags := join (py ",") (get_or_empty (tags sn)) in
  categoryId <- getitem "categoryId" (categoryId sn) ;;
  publishedAt <- getitem "publishedAt" (publishedAt sn) ;;
  cd <- getitem "contentDetails" (contentDetails item) ;;
  duration <- getitem "duration" (duration cd) ;;
  video_duration <- lift (parse_duration_str api duration) ;;
  stats <- getitem "statistics" (statistics item) ;;
  ret {| Video_URL := py "https://www.youtube.com/watch?v=" ++ item_id;
         Title := title;
         Description := description;
         Channel_Title := channelTitle;
         Keyword_Tags := keyword_tags;
         YouTube_Video_Category := categoryId;
         Video_Published_at := publishedAt;
         Video_Duration := video_duration;
         View_Count := get_or_zero (viewCount stats);
         Comment_Count := get_or_zero (commentCount stats);
         Captions_Available := has_captions;
         Caption_Text := if has_captions then caption_text else py "" |}.

(** The body of [for item in response["items"]]. *)
Definition details_item (item : video_item) : M unit :=
  item_id <- getitem "id" (id item) ;;
  captions <- get_video_captions item_id ;;
  let (has_captions, caption_text) := captions : bool * str in
  video_info <- video_info item has_captions caption_text ;;
  append_video_data video_info ;;
  emit (PbarUpdate 1).

(** How the [try] statement of a batch ends: it falls through to the
    statement after it, or its handler ran [continue]. *)
Inductive try_exit :=
| FallThrough
| Continue.

(** The body of [for i in range(0, len(video_ids), 50)]. *)
Definition details_batch (video_ids : list str) (i : nat) : M unit :=
  let batch_ids := slice video_ids i (i + 50) in
  exit <-
    try_except
      (response <-
         videos_execute
           {| videos_part := py "snippet,contentDetails,statistics";
              videos_id := join (py ",") batch_ids |} ;;
       match videos_items response with
       | Some items => for_each items details_item
       | None => ret tt
       end ;;
       ret FallThrough)
      any_Exception
      (fun e => print (MsgBatchError e) ;; ret Continue) ;;
  match exit with
  | Continue => ret tt
  | FallThrough => emit (Sleep 100)
  end.

Definition get_video_details (video_ids : list str) : M (list VideoRecord) :=
  set_video_data [] ;;
  try_except
    (print (MsgGettingDetails (len video_ids)) ;;
     emit (PbarOpen (len video_ids) (py "Processing videos")) ;;
     for_each (range 0 (List.length video_ids) 50) (details_batch video_ids) ;;
     emit PbarClose ;;
     get_video_data)
    any_Exception
    (fun e => print (MsgDetailsError e) ;; ret []).

(** *** collect_data *)

(** [c.isalnum()]: the ASCII letters and digits below 128, the character
    database above. *)
Definition isalnum (c : char) : bool :=
  if (c <? 128)%N then
    ((48 <=? c) && (c <=? 57) || (65 <=? c) && (c <=? 90)
     || (97 <=? c) && (c <=? 122))%N
  else unicode_isalnum c.

(** The code points [str.strip()] removes. *)
Definition whitespace : list char :=
  [9; 10; 11; 12; 13; 28; 29; 30; 31; 32; 133; 160; 5760;
   8192; 8193; 8194; 8195; 8196; 8197; 8198; 8199; 8200; 8201; 8202;
   8232; 8233; 8239; 8287; 12288]%N.

Definition char_in (c : char) (cs : list char) : bool := existsb (N.eqb c) cs.

Definition isspace (c : char) : bool := char_in c whitespace.

Fixpoint lstrip (s : str) : str :=
  match s with
  | [] => []
  | c :: rest => if isspace c then lstrip rest else s
  end.

Definition strip (s : str) : str := rev (lstrip (rev (lstrip s))).

(** [c.isalnum() or c in (" ", "-", "_")] *)
Definition keeps (c : char) : bool :=
  isalnum c || char_in c (py " " ++ py "-" ++ py "_").

Definition safe_genre (genre : str) : str := strip (filter keeps genre).

(** [os.path.join(output_dir, name)] for a relative [name]. *)
Definition path_join (dir name : str) : str := dir ++ os_sep api ++ name.

Definition output_file (output_dir genre : str) : str :=
  path_join output_dir
    (py "youtube_" ++ safe_genre genre ++ py "_" ++ now_stamp api ++ py ".csv").

Definition collect_data (fuel : nat) (genre : str) : M unit :=
  try_except
    (emit Clock ;;
     print MsgStarting ;;
     let output_dir := py "output" in
     emit (Makedirs output_dir) ;;
     lift (makedirs api output_dir) ;;
     video_ids <- search_videos_by_genre fuel genre 500 ;;
     match video_ids with
     | [] => print MsgNoVideosFound
     | _ :: _ =>
         video_data <- get_video_details video_ids ;;
         match video_data with
         | [] => print MsgNoDetails
         | _ :: _ =>
             let output_file := output_file output_dir genre in
             emit (ToCsv output_file video_data) ;;
             lift (to_csv api output_file video_data) ;;
             emit Clock ;;
             print MsgCompleted ;;
             print (MsgTotalProcessed (len video_data)) ;;
             print MsgTimeTaken ;;
             print (MsgSavedTo output_file)
         end
     end)
    any_Exception
    (fun e => print (MsgCollectError e)).

End Collector.

(** ** Vocabulary of the properties *)

(** What a run returned and what it did. *)
Definition returned {A} (r : outcome A * state) : outcome A := fst r.
Definition events {A} (r : outcome A * state) : list event := trace (snd r).

Definition is_Sleep (ev : event) : bool :=
  match ev with Sleep _ => true | _ => false end.

Definition is_SearchCall (ev : event) : bool :=
  match ev with SearchCall _ => true | _ => false end.

Definition is_VideosCall (ev : event) : bool :=
  match ev with VideosCall _ => true | _ => false end.

(** Number of delays, of search calls and of details calls in a trace. *)
Definition sleeps (tr : list event) : nat := List.length (filter is_Sleep tr).
Definition searches (tr : list event) : nat :=
  List.length (filter is_SearchCall tr).
Definition details_calls (tr : list event) : nat :=
  List.length (filter is_VideosCall tr).

(** A state with an empty trace and empty lists in which [c] details calls
    have been made, and the state reached from [st] by doing what led from
    such a state to [d]. *)
Definition at_calls (c : nat) : state :=
  {| trace := []; search_calls := 0; videos_calls := c;
     video_ids := []; video_data := [] |}.

Definition graft (st d : state) : state :=
  {| trace := trace st ++ trace d;
     search_calls := search_calls st;
     videos_calls := videos_calls d;
     video_ids := video_ids st;
     video_data := video_data st ++ video_data d |}.

(** A computation is local when it reads nothing of the state but the number
    of details calls made, and only appends to the trace and to
    [video_data]. *)
Definition local {A} (m : M A) : Prop :=
  forall st,
    m st = (fst (m (at_calls (videos_calls st))),
            graft st (snd (m (at_calls (videos_calls st))))).

(** *** Transcripts *)

(** The transcript the fetcher settles on: the English one, or else the
    manually created one asked for without a language. *)
Inductive resolves (tl : TranscriptList) (t : Transcript) : Prop :=
| resolves_english :
    find_transcript tl [py "en"] = inr t -> resolves tl t
| resolves_fallback e :
    find_transcript tl [py "en"] = inl e ->
    find_manually_created_transcript tl None = inr t ->
    resolves tl t.

(** The ways the transcript of a video can fail to be obtained. *)
Inductive captions_failure (api : collaborators) (video_id : str) : Prop :=
| no_tracks e :
    list_transcripts api video_id = inl e ->
    captions_failure api video_id
| no_transcript tl e1 e2 :
    list_transcripts api video_id = inr tl ->
    find_transcript tl [py "en"] = inl e1 ->
    find_manually_created_transcript tl None = inl e2 ->
    captions_failure api video_id
| fetch_failed tl t e :
    list_transcripts api video_id = inr tl ->
    resolves tl t ->
    fetch t = inl e ->
    captions_failure api video_id
| parse_failed tl t caption_data :
    list_transcripts api video_id = inr tl ->
    resolves tl t ->
    fetch t = inr caption_data ->
    Exists (fun entry => text entry = None) caption_data ->
    captions_failure api video_id.

(** The texts of the caption segments, when every segment has one. *)
Fixpoint texts_of (caption_data : list caption_entry) : option (list str) :=
  match caption_data with
  | [] => Some []
  | entry :: rest =>
      match text entry, texts_of rest with
      | Some t, Some ts => Some (t :: ts)
      | _, _ => None
      end
  end.

(** The same collaborators with another transcript library. *)
Definition with_transcripts (lt : str -> result TranscriptList)
    (api : collaborators) : collaborators :=
  {| search_list_execute := search_list_execute api;
     videos_list_execute := videos_list_execute api;
     list_transcripts := lt;
     parse_duration_str := parse_duration_str api;
     now_stamp := now_stamp api;
     os_sep := os_sep api;
     makedirs := makedirs api;
     to_csv := to_csv api |}.

(** The same collaborators, except that the details call number [k] raises
    [e]. *)
Definition failing_at (k : nat) (e : exn) (api : collaborators)
    : collaborators :=
  {| search_list_execute := search_list_execute api;
     videos_list_execute :=
       fun n r => if n =? k then inl e else videos_list_execute api n r;
     list_transcripts := list_transcripts api;
     parse_duration_str := parse_duration_str api;
     now_stamp := now_stamp api;
     os_sep := os_sep api;
     makedirs := makedirs api;
     to_csv := to_csv api |}.

(** A record without what the transcript contributed to it. *)
Definition without_captions (r : VideoRecord) : VideoRecord :=
  {| Video_URL := Video_URL r;
     Title := Title r;
     Description := Description r;
     Channel_Title := Channel_Title r;
     Keyword_Tags := Keyword_Tags r;
     YouTube_Video_Category := YouTube_Video_Category r;
     Video_Published_at := Video_Published_at r;
     Video_Duration := Video_Duration r;
     View_Count := View_Count r;
     Comment_Count := Comment_Count r;
     Captions_Available := false;
     Caption_Text := py "" |}.

(** *** Items *)

(** The state reached from [st] by emitting [evs] and appending [recs] to
    [video_data]. *)
Definition advance (st : state) (evs : list event) (recs : list VideoRecord)
    : state :=
  {| trace := trace st ++ evs;
     search_calls := search_calls st;
     videos_calls := videos_calls st;
     video_ids := video_ids st;
     video_data := video_data st ++ recs |}.

(** The events the handling of one item can emit: the calls to the
    transcript library and the progress of the bar. *)
Definition item_event (ev : event) : bool :=
  match ev with
  | ListTranscripts _ | FindTranscript _ | FindManuallyCreated _
  | FetchTranscript | PbarUpdate _ => true
  | _ => false
  end.

(** What [get_video_captions] returns for a video and what it emits. *)
Definition captions_of (api : collaborators) (video_id : str) : bool * str :=
  match returned (get_video_captions api video_id init) with
  | Val r => r
  | _ => (false, py "")
  end.

Definition captions_events (api : collaborators) (video_id : str)
    : list event :=
  events (get_video_captions api video_id init).

(** A record with the two fields the transcript decides set from the pair
    [get_video_captions] returned. *)
Definition with_captions (captions : bool * str) (r : VideoRecord)
    : VideoRecord :=
  {| Video_URL := Video_URL r;
     Title := Title r;
     Description := Description r;
     Channel_Title := Channel_Title r;
     Keyword_Tags := Keyword_Tags r;
     YouTube_Video_Category := YouTube_Video_Category r;
     Video_Published_at := Video_Published_at r;
     Video_Duration := Video_Duration r;
     View_Count := View_Count r;
     Comment_Count := Comment_Count r;
     Captions_Available := fst captions;
     Caption_Text := if fst captions then snd captions else py "" |}.

(** The record of an item, when one can be assembled. *)
Definition item_record (api : collaborators) (item : video_item)
    : option VideoRecord :=
  match id item with
  | None => None
  | Some video_id =>
      match returned (video_info api item false (py "") init) with
      | Val r => Some (with_captions (captions_of api video_id) r)
      | _ => None
      end
  end.

(** The records of the items of a response, up to the first item from which
    none can be assembled. *)
Fixpoint items_records (api : collaborators) (items : list video_item)
    : list VideoRecord :=
  match items with
  | [] => []
  | item :: rest =>
      match item_record api item with
      | Some r => r :: items_records api rest
      | None => []
      end
  end.

(** The records an answer of the details collaborator gives rise to. *)
Definition response_records (api : collaborators)
    (answer : result videos_response) : list VideoRecord :=
  match answer with
  | inl _ => []
  | inr response =>
      match videos_items response with
      | Some items => items_records api items
      | None => []
      end
  end.

(** The record [r] of the item [item] has the defaults for what the item
    omits: the integer 0 for a missing view or comment count, the empty tag
    list, joined to the empty string, for missing tags. *)
Definition uses_defaults (item : video_item) (r : VideoRecord) : Prop :=
  exists sn stats,
    snippet_of item = Some sn /\
    statistics item = Some stats /\
    (viewCount stats = None -> View_Count r = PyInt 0) /\
    (commentCount stats = None -> Comment_Count r = PyInt 0) /\
    (tags sn = None ->
     get_or_empty (tags sn) = [] /\ Keyword_Tags r = py "").


(** [watch?v=] address of a video. *)
Definition watch_url (video_id : str) : str :=
  py "https://www.youtube.com/watch?v=" ++ video_id.

(** The events of one item: those of its transcript, then the progress of
    the bar when a record was appended. *)
Definition item_events (api : collaborators) (item : video_item)
    : list event :=
  match id item with
  | None => []
  | Some video_id =>
      captions_events api video_id ++
      match item_record api item with
      | Some _ => [PbarUpdate 1]
      | None => []
      end
  end.

Fixpoint items_events (api : collaborators) (items : list video_item)
    : list event :=
  match items with
  | [] => []
  | item :: rest =>
      item_events api item ++
      match item_record api item with
      | Some _ => items_events api rest
      | None => []
      end
  end.

(** An item from which a record can be assembled: it has an identifier and
    every field the record reads without a default, and its duration
    parses. *)
Definition well_formed (api : collaborators) (item : video_item) : Prop :=
  exists r, returned (video_info api item false (py "") init) = Val r.

(** *** Batches *)

(** The request of the batch that starts at index [i]. *)
Definition batch_request (video_ids : list str) (i : nat) : videos_request :=
  {| videos_part := py "snippet,contentDetails,statistics";
     videos_id := join (py ",") (slice video_ids i (i + 50)) |}.

(** What the batch starting at [i] emits and appends when it is the details
    call number [c]. *)
Definition batch_events (api : collaborators) (video_ids : list str)
    (c i : nat) : list event :=
  events (details_batch api video_ids i (at_calls c)).

Definition batch_records (api : collaborators) (video_ids : list str)
    (c i : nat) : list VideoRecord :=
  response_records api (videos_list_execute api c (batch_request video_ids i)).

(** The batch that starts at [i] runs to the end of its [try] statement when
    it is the details call number [c]: the call answers, and every item of
    the answer is well formed. *)
Definition batch_completes (api : collaborators) (video_ids : list str)
    (c i : nat) : Prop :=
  exists response,
    videos_list_execute api c (batch_request video_ids i) = inr response /\
    forall items, videos_items response = Some items ->
                  Forall (well_formed api) items.

(** The events and the records of the batches whose starts are [starts], the
    first of them being the details call number [c]. *)
Fixpoint batches_events (api : collaborators) (video_ids : list str)
    (c : nat) (starts : list nat) : list event :=
  match starts with
  | [] => []
  | i :: rest =>
      batch_events api video_ids c i ++
      batches_events api video_ids (S c) rest
  end.

Fixpoint batches_records (api : collaborators) (video_ids : list str)
    (c : nat) (starts : list nat) : list VideoRecord :=
  match starts with
  | [] => []
  | i :: rest =>
      batch_records api video_ids c i ++
      batches_records api video_ids (S c) rest
  end.

(** Every record carries what the fetcher returned for its video. *)
Definition carries_captions (api : collaborators) (r : VideoRecord) : Prop :=
  exists video_id,
    Video_URL r = watch_url video_id /\
    Captions_Available r = fst (captions_of api video_id) /\
    Caption_Text r =
      (if fst (captions_of api video_id)
       then snd (captions_of api video_id) else py "").

(** *** Pages *)

(** The request of one page: [n] results from the cursor [token] on. *)
Definition page_request (genre : str) (n : Z) (token : option str)
    : search_request :=
  {| q := genre;
     part := py "id";
     type_ := py "video";
     maxResults := n;
     pageToken := token;
     order := py "viewCount";
     regionCode := None;
     relevanceLanguage := py "" |}.

(** A search item that exposes the identifier [v], and the identifier an
    item exposes. *)
Definition item_of (v : str) : search_item := {| item_id := Some (Some v) |}.

Definition videoId_of (item : search_item) : option str :=
  match item_id item with
  | Some (Some v) => Some v
  | _ => None
  end.

(** The identifiers of the items of a page up to the first item that exposes
    none, and the identifiers of the page when every item exposes one. *)
Fixpoint ids_prefix (items : list search_item) : list str :=
  match items with
  | [] => []
  | item :: rest =>
      match videoId_of item with
      | Some v => v :: ids_prefix rest
      | None => []
      end
  end.

Fixpoint page_ids (items : list search_item) : option (list str) :=
  match items with
  | [] => Some []
  | item :: rest =>
      match videoId_of item, page_ids rest with
      | Some v, Some vs => Some (v :: vs)
      | _, _ => None
      end
  end.

(** The state reached from [st] by appending [ids] to [video_ids], the
    progress bar moving once for each. *)
Definition collect (st : state) (ids : list str) : state :=
  {| trace := trace st ++ repeat (PbarUpdate 1) (List.length ids);
     search_calls := search_calls st;
     videos_calls := videos_calls st;
     video_ids := video_ids st ++ ids;
     video_data := video_data st |}.

(** The state reached from [st] by the search call [r]. *)
Definition called (st : state) (r : search_request) : state :=
  {| trace := trace st ++ [SearchCall r];
     search_calls := S (search_calls st);
     videos_calls := videos_calls st;
     video_ids := video_ids st;
     video_data := video_data st |}.

(** A computation emits only events that satisfy [P]. *)
Definition emits_only {A} (P : event -> Prop) (m : M A) : Prop :=
  forall st,
    exists evs, trace (snd (m st)) = trace st ++ evs /\ Forall P evs.

(** An event that writes no file. *)
Definition not_a_file (ev : event) : Prop :=
  match ev with
  | ToCsv _ _ => False
  | _ => True
  end.

(** An event that writes no file but [file]. *)
Definition no_file_but (file : str) (ev : event) : Prop :=
  match ev with
  | ToCsv path _ => path = file
  | _ => True
  end.

(** The number of records a run returned. *)
Definition record_count (o : outcome (list VideoRecord)) : option nat :=
  match o with
  | Val records => Some (List.length records)
  | _ => None
  end.

(** The files a trace writes, each with its number of rows. *)
Definition files_written (tr : list event) : list (str * nat) :=
  flat_map (fun ev =>
              match ev with
              | ToCsv path rows => [(path, List.length rows)]
              | _ => []
              end) tr.

(** The state reached from [st] by emitting [evs]. *)
Definition logged (st : state) (evs : list event) : state :=
  {| trace := trace st ++ evs;
     search_calls := search_calls st;
     videos_calls := videos_calls st;
     video_ids := video_ids st;
     video_data := video_data st |}.

(** ** Concrete collaborators

    A catalogue of 120 videos served in pages, and a few services that fail
    in one way or another; the properties below are instantiated on them. *)

Module Scenario.

Definition video_name (n : nat) : str :=
  py ("v" ++ NilEmpty.string_of_uint (Nat.to_uint n)).

Definition catalogue : list str := map video_name (seq 0 120).

(** The cursor after [n] identifiers, and the number of identifiers a cursor
    stands after. *)
Definition token_of (n : nat) : str := repeat 120%N n.

Definition offset_of (token : option str) : nat :=
  match token with
  | None => 0
  | Some t => List.length t
  end.

(** A search endpoint that pages through [available]. *)
Definition paging_search (available : list str) (k : nat)
    (r : search_request) : result search_response :=
  let offset := offset_of (pageToken r) in
  let n := Z.to_nat (maxResults r) in
  let remaining := skipn offset available in
  inr {| search_items := Some (map item_of (firstn n remaining));
         nextPageToken :=
           match skipn n remaining with
           | [] => None
           | _ :: _ => Some (token_of (offset + n))
           end |}.

(** A search endpoint that answers one page of two videos and no cursor. *)
Definition one_page_search (k : nat) (r : search_request)
    : result search_response :=
  inr {| search_items := Some [item_of (py "a"); item_of (py "b")];
         nextPageToken := None |}.

(** An item with every field but the tags and the comment count. *)
Definition complete_item (video_id : str) : video_item :=
  {| id := Some video_id;
     snippet_of :=
       Some {| title := Some (py "Opening traps");
               description := Some (py "Ten traps in the opening");
               channelTitle := Some (py "Chess club");
               tags := None;
               categoryId := Some (py "27");
               publishedAt := Some (py "2020-05-17T10:00:00Z") |};
     contentDetails := Some {| duration := Some (py "PT4M13S") |};
     statistics :=
       Some {| viewCount := Some (py "1024"); commentCount := None |} |}.

(** A details endpoint that answers the batch number [k] of the catalogue
    with one complete item for each identifier. *)
Definition catalogue_details (k : nat) (r : videos_request)
    : result videos_response :=
  inr {| videos_items :=
           Some (map complete_item (slice catalogue (50 * k) (50 * k + 50))) |}.

(** A details endpoint that answers with the item of the video "a" only,
    whatever was asked for. *)
Definition partial_details (k : nat) (r : videos_request)
    : result videos_response :=
  inr {| videos_items := Some [complete_item (py "a")] |}.

(** A details endpoint out of quota. *)
Definition quota_exceeded : exn := HttpError 403 (py "quotaExceeded").

Definition no_details (k : nat) (r : videos_request)
    : result videos_response :=
  inl quota_exceeded.

(** Transcripts: the video "a" has no English transcript but a manually
    created one of two segments; the other videos have transcripts
    disabled. *)
Definition spoken : Transcript :=
  {| fetch := inr [ {| text := Some (py "hello") |};
                   {| text := Some (py "world") |} ] |}.

Definition manual_only : TranscriptList :=
  {| find_transcript := fun _ => inl (OtherError (py "NoTranscriptFound"));
     find_manually_created_transcript := fun _ => inr spoken |}.

Definition transcripts (video_id : str) : result TranscriptList :=
  if list_eq_dec N.eq_dec video_id (py "a") then inr manual_only
  else inl (OtherError (py "TranscriptsDisabled")).

Definition no_transcripts (video_id : str) : result TranscriptList :=
  inl (OtherError (py "TranscriptsDisabled")).

Definition studio : collaborators :=
  {| search_list_execute := paging_search catalogue;
     videos_list_execute := catalogue_details;
     list_transcripts := transcripts;
     parse_duration_str := fun _ => inr (py "0:04:13");
     now_stamp := py "20240101_120000";
     os_sep := py "/";
     makedirs := fun _ => inr tt;
     to_csv := fun _ _ => inr tt |}.

Definition one_page : collaborators :=
  {| search_list_execute := one_page_search;
     videos_list_execute := partial_details;
     list_transcripts := transcripts;
     parse_duration_str := fun _ => inr (py "0:04:13");
     now_stamp := py "20240101_120000";
     os_sep := py "/";
     makedirs := fun _ => inr tt;
     to_csv := fun _ _ => inr tt |}.

Definition out_of_quota : collaborators :=
  {| search_list_execute := one_page_search;
     videos_list_execute := no_details;
     list_transcripts := transcripts;
     parse_duration_str := fun _ => inr (py "0:04:13");
     now_stamp := py "20240101_120000";
     os_sep := py "/";
     makedirs := fun _ => inr tt;
     to_csv := fun _ _ => inr tt |}.

(** What the paging endpoint has left to serve at a cursor. *)
Definition left_at (k : nat) (token : option str) (remaining : list str)
    : Prop :=
  remaining = skipn (offset_of token) catalogue.

(** No character beyond ASCII is taken for alphanumeric. *)
Definition ascii_only (c : char) : bool := false.

End Scenario.

(** ** Vocabulary of the further properties *)

Definition is_PbarUpdate (ev : event) : bool :=
  match ev with PbarUpdate _ => true | _ => false end.

(** Number of steps of the progress bar in a trace. *)
Definition progress (tr : list event) : nat :=
  List.length (filter is_PbarUpdate tr).

(** The details calls of a trace, in order. *)
Definition videos_requests (tr : list event) : list videos_request :=
  flat_map (fun ev =>
              match ev with
              | VideosCall r => [r]
              | _ => []
              end) tr.

(** The search calls of a trace, in order. *)
Definition search_requests (tr : list event) : list search_request :=
  flat_map (fun ev =>
              match ev with
              | SearchCall r => [r]
              | _ => []
              end) tr.

(** A request the paginator may make for [genre] towards [max_results]
    identifiers: the fixed parameters of the source, and a page size between
    1 and 50 that does not exceed the target. *)
Definition paginator_request (genre : str) (max_results : Z)
    (r : search_request) : Prop :=
  q r = genre /\ part r = py "id" /\ type_ r = py "video" /\
  order r = py "viewCount" /\ regionCode r = None /\
  relevanceLanguage r = py "" /\
  (1 <= maxResults r <= 50)%Z /\ (maxResults r <= max_results)%Z.

(** An event that is no search call, or a call the paginator may make. *)
Definition paginator_event (genre : str) (max_results : Z) (ev : event)
    : Prop :=
  match ev with
  | SearchCall r => paginator_request genre max_results r
  | _ => True
  end.

(** An event that is no search call. *)
Definition not_a_search (ev : event) : Prop :=
  match ev with
  | SearchCall _ => False
  | _ => True
  end.

(** A computation run from [st] emits only events that satisfy [P]. *)
Definition emits_at {A} (P : event -> Prop) (m : M A) (st : state) : Prop :=
  exists evs, trace (snd (m st)) = trace st ++ evs /\ Forall P evs.

(** A string that neither starts nor ends with white space. *)
Definition trimmed (s : str) : Prop :=
  lstrip s = s /\ lstrip (rev s) = rev s.

(** Concrete collaborators that fail in the middle of the work. *)

Module Faults.

(** A search endpoint whose first page has two videos and a cursor, and
    whose later calls raise [e]. *)
Definition first_page : search_response :=
  {| search_items := Some [item_of (py "a"); item_of (py "b")];
     nextPageToken := Some (py "CAIQAA") |}.

Definition search_then (e : exn) (k : nat) (r : search_request)
    : result search_response :=
  if k =? 0 then inr first_page else inl e.

Definition server_error : exn := HttpError 500 (py "backendError").

Definition timed_out : exn := OtherError (py "timed out").

(** An item without statistics. *)
Definition broken_item (video_id : str) : video_item :=
  {| id := Some video_id;
     snippet_of := snippet_of (Scenario.complete_item video_id);
     contentDetails := contentDetails (Scenario.complete_item video_id);
     statistics := None |}.

(** A details endpoint whose answer has a broken item in the middle. *)
Definition broken_details (k : nat) (r : videos_request)
    : result videos_response :=
  inr {| videos_items :=
           Some [Scenario.complete_item (py "a"); broken_item (py "b");
                 Scenario.complete_item (py "c")] |}.

Definition with_search (search : nat -> search_request -> result search_response)
    (api : collaborators) : collaborators :=
  {| search_list_execute := search;
     videos_list_execute := videos_list_execute api;
     list_transcripts := list_transcripts api;
     parse_duration_str := parse_duration_str api;
     now_stamp := now_stamp api;
     os_sep := os_sep api;
     makedirs := makedirs api;
     to_csv := to_csv api |}.

Definition with_details
    (details : nat -> videos_request -> result videos_response)
    (api : collaborators) : collaborators :=
  {| search_list_execute := search_list_execute api;
     videos_list_execute := details;
     list_transcripts := list_transcripts api;
     parse_duration_str := parse_duration_str api;
     now_stamp := now_stamp api;
     os_sep := os_sep api;
     makedirs := makedirs api;
     to_csv := to_csv api |}.

Definition with_makedirs (mk : str -> result unit) (api : collaborators)
    : collaborators :=
  {| search_list_execute := search_list_execute api;
     videos_list_execute := videos_list_execute api;
     list_transcripts := list_transcripts api;
     parse_duration_str := parse_duration_str api;
     now_stamp := now_stamp api;
     os_sep := os_sep api;
     makedirs := mk;
     to_csv := to_csv api |}.

Definition read_only : exn := OtherError (py "Read-only file system").

End Faults.

(** * Properties *)

(** ** Grafting and local computations *)

Lemma graft_at st : graft st (at_calls (videos_calls st)) = st.
Proof.
  destruct st; unfold graft; simpl. now rewrite !app_nil_r.
Qed.

Lemma graft_assoc st d d' : graft (graft st d) d' = graft st (graft d d').
Proof.
  unfold graft; simpl. now rewrite !app_assoc.
Qed.

Lemma local_ret {A} (a : A) : local (ret a).
Proof. intro st. unfold ret; simpl. now rewrite graft_at. Qed.

Lemma local_raise {A} (e : exn) : local (@raise A e).
Proof. intro st. unfold raise; simpl. now rewrite graft_at. Qed.

Lemma local_lift {A} (r : result A) : local (lift r).
Proof. destruct r; [apply local_raise | apply local_ret]. Qed.

Lemma local_getitem {A} key (field : option A) : local (getitem key field).
Proof. destruct field; [apply local_ret | apply local_raise]. Qed.

Lemma local_emit ev : local (emit ev).
Proof.
  intro st. unfold emit, graft; simpl. now rewrite app_nil_r.
Qed.

Lemma local_append_video_data r : local (append_video_data r).
Proof.
  intro st. unfold append_video_data, graft; simpl. now rewrite app_nil_r.
Qed.

Lemma local_videos_execute api r : local (videos_execute api r).
Proof.
  intro st. unfold videos_execute; simpl.
  destruct (videos_list_execute api (videos_calls st) r);
    unfold lift, raise, ret, graft; simpl; now rewrite app_nil_r.
Qed.

Lemma local_bind {A B} (m : M A) (k : A -> M B) :
  local m -> (forall a, local (k a)) -> local (bind m k).
Proof.
  intros Hm Hk st. unfold bind. rewrite (Hm st).
  destruct (m (at_calls (videos_calls st))) as [o d]; simpl.
  destruct o as [a | e |]; try reflexivity.
  rewrite (Hk a (graft st d)), (Hk a d); simpl.
  now rewrite graft_assoc.
Qed.

Lemma local_try_except {A} (body : M A) catches handler :
  local body -> (forall e, local (handler e)) ->
  local (try_except body catches handler).
Proof.
  intros Hb Hh st. unfold try_except. rewrite (Hb st).
  destruct (body (at_calls (videos_calls st))) as [o d]; simpl.
  destruct o as [a | e |]; try reflexivity.
  destruct (catches e); try reflexivity.
  rewrite (Hh e (graft st d)), (Hh e d); simpl.
  now rewrite graft_assoc.
Qed.

Lemma local_for_each {A} (xs : list A) body :
  (forall x, local (body x)) -> local (for_each xs body).
Proof.
  intro Hb. induction xs as [| x rest IH]; simpl.
  - apply local_ret.
  - apply local_bind; auto.
Qed.

Create HintDb local_db.
#[export] Hint Resolve local_ret local_raise local_lift local_getitem
  local_emit local_append_video_data local_videos_execute
  local_for_each : local_db.

Ltac local_step :=
  lazymatch goal with
  | |- local (bind _ _) => apply local_bind; [| intro]
  | |- local (try_except _ _ _) => apply local_try_except; [| intro]
  | |- local (match ?x with _ => _ end) => destruct x
  | |- local _ => solve [auto with local_db]
  end.

(** One step of [m ;; k]. *)
Lemma bind_run {A B} (m : M A) (k : A -> M B) st :
  bind m k st =
  match m st with
  | (Val a, st') => k a st'
  | (Exc e, st') => (Exc e, st')
  | (OutOfFuel, st') => (OutOfFuel, st')
  end.
Proof. reflexivity. Qed.

(** ** get_video_captions *)

Lemma entry_texts_run caption_data st :
  entry_texts caption_data st =
  (match texts_of caption_data with
   | Some ts => Val ts
   | None => Exc (KeyError (py "text"))
   end, st).
Proof.
  revert st. induction caption_data as [| entry rest IH]; intro st; simpl.
  - reflexivity.
  - unfold bind. destruct (text entry) as [t |]; simpl.
    + rewrite IH. now destruct (texts_of rest).
    + reflexivity.
Qed.

Lemma texts_of_none caption_data :
  Exists (fun entry => text entry = None) caption_data ->
  texts_of caption_data = None.
Proof.
  induction 1 as [entry rest H | entry rest _ IH]; simpl.
  - now rewrite H.
  - rewrite IH. now destruct (text entry).
Qed.

Lemma local_entry_texts caption_data : local (entry_texts caption_data).
Proof.
  induction caption_data as [| entry rest IH]; simpl.
  - apply local_ret.
  - repeat local_step.
Qed.

#[export] Hint Resolve local_entry_texts : local_db.

Lemma local_get_video_captions api video_id :
  local (get_video_captions api video_id).
Proof. unfold get_video_captions. repeat local_step. Qed.

#[export] Hint Resolve local_get_video_captions : local_db.

(** The fetcher always hands a pair to its caller. *)
Lemma get_video_captions_returns api video_id st :
  exists r, fst (get_video_captions api video_id st) = Val r.
Proof.
  unfold get_video_captions, try_except, bind, emit, lift, any_Exception;
    simpl.
  destruct (list_transcripts api video_id) as [e | tl]; simpl; eauto.
  destruct (find_transcript tl [py "en"]) as [e1 | t]; simpl.
  - destruct (find_manually_created_transcript tl None) as [e2 | t]; simpl;
      eauto.
    destruct (fetch t) as [e | caption_data]; simpl; eauto.
    rewrite entry_texts_run. destruct (texts_of caption_data); simpl; eauto.
  - destruct (fetch t) as [e | caption_data]; simpl; eauto.
    rewrite entry_texts_run. destruct (texts_of caption_data); simpl; eauto.
Qed.

Lemma get_video_captions_failure api video_id st :
  captions_failure api video_id ->
  fst (get_video_captions api video_id st) = Val (false, py "").
Proof.
  intro F.
  unfold get_video_captions, try_except, bind, emit, lift, any_Exception;
    simpl.
  destruct F as [e H | tl e1 e2 H H1 H2 | tl t e H R Hf | tl t cd H R Hf Hp];
    rewrite H; simpl.
  - reflexivity.
  - rewrite H1; simpl. now rewrite H2.
  - destruct R as [R | e1 R1 R2].
    + rewrite R; simpl. now rewrite Hf.
    + rewrite R1; simpl. rewrite R2; simpl. now rewrite Hf.
  - apply texts_of_none in Hp.
    destruct R as [R | e1 R1 R2].
    + rewrite R; simpl. rewrite Hf; simpl.
      rewrite entry_texts_run, Hp. reflexivity.
    + rewrite R1; simpl. rewrite R2; simpl. rewrite Hf; simpl.
      rewrite entry_texts_run, Hp. reflexivity.
Qed.

(** C6.  Whatever the video identifier and whatever the transcript library
    does, [get_video_captions] returns a pair to its caller: it neither
    raises nor fails to return.  When a step fails (no transcript tracks,
    the English lookup and the fallback lookup both fail, the fetch fails, a
    caption segment cannot be read) the pair is [(False, "")]. *)
Theorem get_video_captions_total :
  forall api video_id st,
    (exists available caption_text,
        returned (get_video_captions api video_id st)
        = Val (available, caption_text)) /\
    (captions_failure api video_id ->
     returned (get_video_captions api video_id st) = Val (false, py "")).
Proof.
  intros api video_id st. split.
  - destruct (get_video_captions_returns api video_id st) as [[b t] H].
    now exists b, t.
  - apply get_video_captions_failure.
Qed.

(** C10.  The fetcher lists the transcripts of the video, then asks for the
    English one, [find_transcript(["en"])].  When that lookup answers, no
    other lookup is made.  Only when it raises does the fetcher ask for a
    manually created transcript, and it does so without naming a language:
    [find_manually_created_transcript()]. *)
Theorem get_video_captions_lookup_order :
  forall api video_id st,
  exists emitted,
    events (get_video_captions api video_id st) = trace st ++ emitted /\
    match list_transcripts api video_id with
    | inl _ => emitted = [ListTranscripts video_id]
    | inr transcript_list =>
        match find_transcript transcript_list [py "en"] with
        | inr _ =>
            emitted = [ListTranscripts video_id; FindTranscript [py "en"];
                       FetchTranscript]
        | inl _ =>
            exists after,
              emitted = [ListTranscripts video_id; FindTranscript [py "en"];
                         FindManuallyCreated None] ++ after /\
              (after = [] \/ after = [FetchTranscript])
        end
    end.
Proof.
  intros api video_id st.
  unfold events, get_video_captions, try_except, bind, emit, lift,
    any_Exception; simpl.
  destruct (list_transcripts api video_id) as [e | tl]; simpl.
  { eexists; split; [reflexivity | reflexivity]. }
  destruct (find_transcript tl [py "en"]) as [e1 | t]; simpl.
  - destruct (find_manually_created_transcript tl None) as [e2 | t]; simpl.
    + eexists; split.
      * rewrite <- !app_assoc. reflexivity.
      * exists []. split; [reflexivity | now left].
    + eexists; split.
      * destruct (fetch t) as [e | cd]; simpl;
          [| rewrite entry_texts_run; destruct (texts_of cd); simpl];
          rewrite <- !app_assoc; reflexivity.
      * exists [FetchTranscript]. split; [reflexivity | now right].
  - eexists; split; [| reflexivity].
    destruct (fetch t) as [e | cd]; simpl;
      [| rewrite entry_texts_run; destruct (texts_of cd); simpl];
      rewrite <- !app_assoc; reflexivity.
Qed.

(** ** search_videos_by_genre without a positive target *)

(** C5.  With [max_results <= 0] the loop condition is false at once:
    [search_videos_by_genre] returns the empty list, and all it does is
    print its two headers, open and close the progress bar and print the
    total; no call to the search collaborator is made. *)
Theorem search_nothing_requested :
  forall api fuel genre max_results st,
    (max_results <= 0)%Z ->
    let run := search_videos_by_genre api fuel genre max_results st in
    returned run = Val [] /\
    events run =
      trace st ++
      [Printed (MsgSearching max_results); Printed (MsgGenre genre);
       PbarOpen max_results (py "Collecting video IDs"); PbarClose;
       Printed (MsgTotalFound 0)] /\
    searches (events run) = searches (trace st) /\
    search_calls (snd run) = search_calls st.
Proof.
  intros api fuel genre max_results st Hle run.
  assert (E : run =
    (Val [],
     {| trace := trace st ++
          [Printed (MsgSearching max_results); Printed (MsgGenre genre);
           PbarOpen max_results (py "Collecting video IDs"); PbarClose;
           Printed (MsgTotalFound 0)];
        search_calls := search_calls st;
        videos_calls := videos_calls st;
        video_ids := [];
        video_data := video_data st |})).
  { subst run.
    unfold search_videos_by_genre, try_except, bind, set_video_ids, print,
      emit, get_video_ids; simpl.
    assert (L : (len (@nil str) <? max_results)%Z = false)
      by (apply Z.ltb_ge; unfold len; simpl; lia).
    destruct fuel; simpl; unfold bind, get_video_ids; simpl; rewrite L;
      unfold ret; simpl; rewrite <- !app_assoc; reflexivity. }
  rewrite E. unfold returned, events, searches; simpl.
  repeat split; try reflexivity.
  rewrite filter_app; simpl. now rewrite app_nil_r.
Qed.


(** ** What a computation emits *)

Lemma emits_ret {A} P (a : A) : emits_only P (ret a).
Proof. intro st. exists []. simpl. now rewrite app_nil_r. Qed.

Lemma emits_raise {A} P e : emits_only P (@raise A e).
Proof. intro st. exists []. simpl. now rewrite app_nil_r. Qed.

Lemma emits_diverge {A} P : emits_only P (@diverge A).
Proof. intro st. exists []. simpl. now rewrite app_nil_r. Qed.

Lemma emits_lift {A} P (r : result A) : emits_only P (lift r).
Proof. destruct r; [apply emits_raise | apply emits_ret]. Qed.

Lemma emits_getitem {A} P key (field : option A) :
  emits_only P (getitem key field).
Proof. destruct field; [apply emits_ret | apply emits_raise]. Qed.

Lemma emits_emit (P : event -> Prop) ev : P ev -> emits_only P (emit ev).
Proof. intros H st. exists [ev]. simpl. auto. Qed.

Lemma emits_get_video_ids P : emits_only P get_video_ids.
Proof. intro st. exists []. simpl. now rewrite app_nil_r. Qed.

Lemma emits_get_video_data P : emits_only P get_video_data.
Proof. intro st. exists []. simpl. now rewrite app_nil_r. Qed.

Lemma emits_set_video_ids P l : emits_only P (set_video_ids l).
Proof. intro st. exists []. simpl. now rewrite app_nil_r. Qed.

Lemma emits_set_video_data P l : emits_only P (set_video_data l).
Proof. intro st. exists []. simpl. now rewrite app_nil_r. Qed.

Lemma emits_append_video_id P v : emits_only P (append_video_id v).
Proof. intro st. exists []. simpl. now rewrite app_nil_r. Qed.

Lemma emits_append_video_data P r : emits_only P (append_video_data r).
Proof. intro st. exists []. simpl. now rewrite app_nil_r. Qed.

Lemma emits_search_execute (P : event -> Prop) api r :
  P (SearchCall r) -> emits_only P (search_execute api r).
Proof.
  intros H st. exists [SearchCall r]. unfold search_execute.
  destruct (search_list_execute api (search_calls st) r); simpl; auto.
Qed.

Lemma emits_videos_execute (P : event -> Prop) api r :
  P (VideosCall r) -> emits_only P (videos_execute api r).
Proof.
  intros H st. exists [VideosCall r]. unfold videos_execute.
  destruct (videos_list_execute api (videos_calls st) r); simpl; auto.
Qed.

Lemma emits_bind {A B} P (m : M A) (k : A -> M B) :
  emits_only P m -> (forall a, emits_only P (k a)) -> emits_only P (bind m k).
Proof.
  intros Hm Hk st. unfold bind.
  destruct (Hm st) as [e1 [E1 F1]].
  destruct (m st) as [[a | e |] st1]; simpl in *; eauto.
  destruct (Hk a st1) as [e2 [E2 F2]].
  exists (e1 ++ e2). rewrite E2, E1, app_assoc. split; [reflexivity |].
  apply Forall_app. auto.
Qed.

Lemma emits_try_except {A} P (body : M A) catches handler :
  emits_only P body -> (forall e, emits_only P (handler e)) ->
  emits_only P (try_except body catches handler).
Proof.
  intros Hb Hh st. unfold try_except.
  destruct (Hb st) as [e1 [E1 F1]].
  destruct (body st) as [[a | e |] st1]; simpl in *; eauto.
  destruct (catches e); simpl; eauto.
  destruct (Hh e st1) as [e2 [E2 F2]].
  exists (e1 ++ e2). rewrite E2, E1, app_assoc. split; [reflexivity |].
  apply Forall_app. auto.
Qed.

Lemma emits_for_each {A} P (xs : list A) body :
  (forall x, emits_only P (body x)) -> emits_only P (for_each xs body).
Proof.
  intro Hb. induction xs as [| x rest IH]; simpl.
  - apply emits_ret.
  - apply emits_bind; auto.
Qed.

Lemma emits_weaken {A} (P Q : event -> Prop) (m : M A) :
  (forall ev, P ev -> Q ev) -> emits_only P m -> emits_only Q m.
Proof.
  intros H Hm st. destruct (Hm st) as [evs [E F]]. exists evs.
  split; [exact E |]. eapply Forall_impl; eauto.
Qed.

Ltac emits_step :=
  lazymatch goal with
  | |- emits_only _ (bind _ _) => apply emits_bind; [| intro]
  | |- emits_only _ (try_except _ _ _) => apply emits_try_except; [| intro]
  | |- emits_only _ (for_each _ _) => apply emits_for_each; intro
  | |- emits_only _ (ret _) => apply emits_ret
  | |- emits_only _ (raise _) => apply emits_raise
  | |- emits_only _ diverge => apply emits_diverge
  | |- emits_only _ (lift _) => apply emits_lift
  | |- emits_only _ (getitem _ _) => apply emits_getitem
  | |- emits_only _ (emit _) => apply emits_emit; exact I
  | |- emits_only _ (print _) => apply emits_emit; exact I
  | |- emits_only _ get_video_ids => apply emits_get_video_ids
  | |- emits_only _ get_video_data => apply emits_get_video_data
  | |- emits_only _ (set_video_ids _) => apply emits_set_video_ids
  | |- emits_only _ (set_video_data _) => apply emits_set_video_data
  | |- emits_only _ (append_video_id _) => apply emits_append_video_id
  | |- emits_only _ (append_video_data _) => apply emits_append_video_data
  | |- emits_only _ (search_execute _ _) => apply emits_search_execute; exact I
  | |- emits_only _ (videos_execute _ _) => apply emits_videos_execute; exact I
  | |- emits_only _ (match ?x with _ => _ end) => destruct x
  | |- emits_only _ (if ?x then _ else _) => destruct x
  end.

Lemma search_turn_emits_no_file api genre max_results token :
  emits_only not_a_file (search_turn api genre max_results token).
Proof. unfold search_turn, search_item_body. repeat emits_step. Qed.

Lemma search_while_emits_no_file api fuel genre max_results token :
  emits_only not_a_file (search_while api fuel genre max_results token).
Proof.
  revert token. induction fuel as [| fuel IH]; intro token; simpl.
  - repeat emits_step.
  - repeat emits_step.
    + apply search_turn_emits_no_file.
    + apply IH.
Qed.

Lemma search_emits_no_file api fuel genre max_results :
  emits_only not_a_file (search_videos_by_genre api fuel genre max_results).
Proof.
  unfold search_videos_by_genre. repeat emits_step.
  apply search_while_emits_no_file.
Qed.

(** ** The sanitized topic *)

Lemma lstrip_split s :
  exists pre, s = pre ++ lstrip s /\ Forall (fun c => isspace c = true) pre.
Proof.
  induction s as [| c rest IH]; simpl.
  - exists []. auto.
  - destruct (isspace c) eqn:E.
    + destruct IH as [pre [H1 H2]]. exists (c :: pre). split.
      * simpl. now rewrite <- H1.
      * now constructor.
    + exists []. auto.
Qed.

Lemma strip_split s :
  exists pre post,
    s = pre ++ strip s ++ post /\
    Forall (fun c => isspace c = true) pre /\
    Forall (fun c => isspace c = true) post.
Proof.
  destruct (lstrip_split s) as [pre [E1 F1]].
  destruct (lstrip_split (rev (lstrip s))) as [q [E2 F2]].
  exists pre, (rev q). unfold strip. repeat split.
  - rewrite <- rev_app_distr, <- E2, rev_involutive. exact E1.
  - exact F1.
  - now apply Forall_rev.
Qed.

Lemma char_in_In c cs : char_in c cs = true <-> In c cs.
Proof.
  unfold char_in. rewrite existsb_exists. split.
  - intros [x [H1 H2]]. apply N.eqb_eq in H2. now subst.
  - intro H. exists c. split; [exact H | apply N.eqb_refl].
Qed.


(** ** Assembling a record *)

(** [video_info] reads the item only; it leaves the state as it is. *)
Lemma video_info_pure api item has_captions caption_text st :
  video_info api item has_captions caption_text st =
  (fst (video_info api item has_captions caption_text init), st).
Proof.
  unfold video_info, bind, getitem, lift, ret, raise.
  destruct (id item); simpl; [| reflexivity].
  destruct (snippet_of item) as [sn |]; simpl; [| reflexivity].
  destruct (title sn); simpl; [| reflexivity].
  destruct (description sn); simpl; [| reflexivity].
  destruct (channelTitle sn); simpl; [| reflexivity].
  destruct (categoryId sn); simpl; [| reflexivity].
  destruct (publishedAt sn); simpl; [| reflexivity].
  destruct (contentDetails item) as [cd |]; simpl; [| reflexivity].
  destruct (duration cd) as [d |]; simpl; [| reflexivity].
  destruct (parse_duration_str api d); simpl; [reflexivity |].
  destruct (statistics item); reflexivity.
Qed.

Lemma video_info_uses_defaults api item has_captions caption_text st r :
  returned (video_info api item has_captions caption_text st) = Val r ->
  uses_defaults item r.
Proof.
  unfold uses_defaults, returned, video_info, bind, getitem, lift, ret, raise.
  destruct (id item); simpl; [| discriminate].
  destruct (snippet_of item) as [sn |]; simpl; [| discriminate].
  destruct (title sn); simpl; [| discriminate].
  destruct (description sn); simpl; [| discriminate].
  destruct (channelTitle sn); simpl; [| discriminate].
  destruct (categoryId sn); simpl; [| discriminate].
  destruct (publishedAt sn); simpl; [| discriminate].
  destruct (contentDetails item) as [cd |]; simpl; [| discriminate].
  destruct (duration cd) as [d |]; simpl; [| discriminate].
  destruct (parse_duration_str api d); simpl; [discriminate |].
  destruct (statistics item) as [stats |]; simpl; [| discriminate].
  intro H. injection H as <-. exists sn, stats; simpl.
  repeat split.
  - intro V. now rewrite V.
  - intro V. now rewrite V.
  - now rewrite H.
  - now rewrite H.
Qed.

(** ** Items of a details response *)

Lemma advance_nil st : advance st [] [] = st.
Proof. destruct st; unfold advance; simpl. now rewrite !app_nil_r. Qed.

Lemma advance_advance st e1 r1 e2 r2 :
  advance (advance st e1 r1) e2 r2 = advance st (e1 ++ e2) (r1 ++ r2).
Proof. unfold advance; simpl. now rewrite !app_assoc. Qed.

Ltac captions_cases api video_id :=
  unfold get_video_captions, try_except, bind, emit, lift, raise, ret,
    any_Exception; simpl;
  destruct (list_transcripts api video_id) as [? | tl]; simpl;
  [| destruct (find_transcript tl [py "en"]) as [? | t]; simpl;
     [ destruct (find_manually_created_transcript tl None) as [? | t]; simpl;
       [| destruct (fetch t) as [? | cd]; simpl;
          [| rewrite ?entry_texts_run; destruct (texts_of cd); simpl ] ]
     | destruct (fetch t) as [? | cd]; simpl;
       [| rewrite ?entry_texts_run; destruct (texts_of cd); simpl ] ] ].

Lemma get_video_captions_run api video_id st :
  get_video_captions api video_id st =
  (Val (captions_of api video_id),
   advance st (captions_events api video_id) []).
Proof.
  unfold captions_of, captions_events, returned, events, advance.
  captions_cases api video_id;
    rewrite ?app_nil_r, <- ?app_assoc; reflexivity.
Qed.

Lemma captions_events_quiet api video_id :
  Forall (fun ev => item_event ev = true) (captions_events api video_id).
Proof.
  unfold captions_events, events.
  captions_cases api video_id; repeat constructor.
Qed.

(** Whether a record can be assembled does not depend on the transcript,
    which decides two fields of it only. *)
Lemma video_info_cases api item :
  (exists r0,
      returned (video_info api item false (py "") init) = Val r0 /\
      forall b t,
        returned (video_info api item b t init)
        = Val (with_captions (b, t) r0)) \/
  (exists e, forall b t, returned (video_info api item b t init) = Exc e).
Proof.
  unfold returned, video_info, bind, getitem, lift, ret, raise.
  destruct (id item); simpl; [| right; eauto].
  destruct (snippet_of item) as [sn |]; simpl; [| right; eauto].
  destruct (title sn); simpl; [| right; eauto].
  destruct (description sn); simpl; [| right; eauto].
  destruct (channelTitle sn); simpl; [| right; eauto].
  destruct (categoryId sn); simpl; [| right; eauto].
  destruct (publishedAt sn); simpl; [| right; eauto].
  destruct (contentDetails item) as [cd |]; simpl; [| right; eauto].
  destruct (duration cd) as [d |]; simpl; [| right; eauto].
  destruct (parse_duration_str api d); simpl; [right; eauto |].
  destruct (statistics item) as [stats |]; simpl; [| right; eauto].
  left. eexists. split; [reflexivity |]. intros b t. reflexivity.
Qed.

Lemma video_info_url api item has_captions caption_text r :
  returned (video_info api item has_captions caption_text init) = Val r ->
  exists video_id, id item = Some video_id /\ Video_URL r = watch_url video_id.
Proof.
  unfold returned, video_info, bind, getitem, lift, ret, raise.
  destruct (id item) as [v |]; simpl; [| discriminate].
  destruct (snippet_of item) as [sn |]; simpl; [| discriminate].
  destruct (title sn); simpl; [| discriminate].
  destruct (description sn); simpl; [| discriminate].
  destruct (channelTitle sn); simpl; [| discriminate].
  destruct (categoryId sn); simpl; [| discriminate].
  destruct (publishedAt sn); simpl; [| discriminate].
  destruct (contentDetails item) as [cd |]; simpl; [| discriminate].
  destruct (duration cd) as [d |]; simpl; [| discriminate].
  destruct (parse_duration_str api d); simpl; [discriminate |].
  destruct (statistics item) as [stats |]; simpl; [| discriminate].
  intro H. injection H as <-. exists v. auto.
Qed.

Lemma item_record_well_formed api item :
  item_record api item <> None <-> well_formed api item.
Proof.
  unfold item_record, well_formed. split.
  - destruct (id item); [| congruence].
    destruct (returned (video_info api item false (py "") init));
      try congruence. eauto.
  - intros [r H]. destruct (video_info_url _ _ _ _ _ H) as [v [I _]].
    rewrite I, H. discriminate.
Qed.

Lemma details_item_run api item st :
  exists o,
    details_item api item st =
    (o, advance st (item_events api item)
          (match item_record api item with Some r => [r] | None => [] end)) /\
    match item_record api item with
    | Some _ => o = Val tt
    | None => exists e, o = Exc e
    end.
Proof.
  unfold details_item, item_events, item_record.
  rewrite bind_run. unfold getitem.
  destruct (id item) as [v |].
  2: { eexists. split; [unfold raise; now rewrite advance_nil | eauto]. }
  unfold ret at 1. rewrite bind_run, get_video_captions_run.
  destruct (captions_of api v) as [b t].
  rewrite bind_run, video_info_pure.
  destruct (video_info_cases api item) as [[r0 [H0 H]] | [e H]].
  - specialize (H b t). unfold returned in H. rewrite H, H0.
    eexists. split; [| reflexivity].
    unfold bind, append_video_data, emit, advance; simpl.
    now rewrite <- !app_assoc.
  - pose proof (H false (py "")) as H0. specialize (H b t).
    unfold returned in H. rewrite H, H0.
    eexists. split; [| eauto].
    unfold advance; simpl. now rewrite !app_nil_r.
Qed.

Lemma item_events_quiet api item :
  Forall (fun ev => item_event ev = true) (item_events api item).
Proof.
  unfold item_events. destruct (id item); [| constructor].
  apply Forall_app. split; [apply captions_events_quiet |].
  destruct (item_record api item); repeat constructor.
Qed.

Lemma items_events_quiet api items :
  Forall (fun ev => item_event ev = true) (items_events api items).
Proof.
  induction items as [| item rest IH]; simpl; [constructor |].
  apply Forall_app. split; [apply item_events_quiet |].
  destruct (item_record api item); [exact IH | constructor].
Qed.

Lemma items_run api items st :
  exists o,
    for_each items (details_item api) st =
    (o, advance st (items_events api items) (items_records api items)) /\
    ((o = Val tt /\ Forall (well_formed api) items) \/
     ((exists e, o = Exc e) /\ ~ Forall (well_formed api) items)).
Proof.
  revert st. induction items as [| item rest IH]; intro st; simpl.
  - exists (Val tt). unfold ret. rewrite advance_nil. auto.
  - rewrite bind_run.
    destruct (details_item_run api item st) as [o [E Ho]]. rewrite E.
    pose proof (item_record_well_formed api item) as W.
    destruct (item_record api item) as [r |].
    + subst o.
      destruct (IH (advance st (item_events api item) [r]))
        as [o' [E' [[A B] | [A B]]]];
        exists o'; rewrite E', advance_advance; (split; [reflexivity |]).
      * left. split; [exact A |]. constructor; [| exact B].
        apply W. discriminate.
      * right. split; [exact A |]. intro F. apply B. now inversion F.
    + destruct Ho as [e ->]. exists (Exc e). rewrite !app_nil_r.
      split; [reflexivity |]. right. split; [eauto |].
      intro F. inversion F as [| ? ? Wf _]. apply W in Wf. congruence.
Qed.

Lemma items_records_length api items :
  Forall (well_formed api) items ->
  List.length (items_records api items) = List.length items.
Proof.
  induction 1 as [| item rest W _ IH]; simpl; [reflexivity |].
  apply item_record_well_formed in W.
  destruct (item_record api item); [| congruence].
  simpl. now rewrite IH.
Qed.

Lemma quiet_counts evs :
  Forall (fun ev => item_event ev = true) evs ->
  sleeps evs = 0 /\ details_calls evs = 0.
Proof.
  unfold sleeps, details_calls.
  induction 1 as [| ev rest H _ [IH1 IH2]]; simpl; [auto |].
  destruct ev; simpl in *; try discriminate; auto.
Qed.

(** ** Batches *)

Lemma local_video_info api item has_captions caption_text :
  local (video_info api item has_captions caption_text).
Proof.
  intro st. rewrite video_info_pure.
  rewrite (video_info_pure api item _ _ (at_calls _)); simpl.
  now rewrite graft_at.
Qed.

#[export] Hint Resolve local_video_info : local_db.

Lemma local_details_item api item : local (details_item api item).
Proof. unfold details_item. repeat local_step. Qed.

#[export] Hint Resolve local_details_item : local_db.

Lemma local_details_batch api video_ids i :
  local (details_batch api video_ids i).
Proof. unfold details_batch, print. repeat local_step. Qed.

(** What one batch does, from any state. *)
Lemma details_batch_run api ids i st :
  exists evs,
    details_batch api ids i st =
    (Val tt,
     {| trace := trace st ++ VideosCall (batch_request ids i) :: evs;
        search_calls := search_calls st;
        videos_calls := S (videos_calls st);
        video_ids := video_ids st;
        video_data :=
          video_data st ++ batch_records api ids (videos_calls st) i |})
    /\
    match videos_list_execute api (videos_calls st)
            (batch_request ids i) with
    | inl e => evs = [Printed (MsgBatchError e)]
    | inr _ =>
        exists mid,
          Forall (fun ev => item_event ev = true) mid /\
          ((batch_completes api ids (videos_calls st) i /\
            evs = mid ++ [Sleep 100]) \/
           (~ batch_completes api ids (videos_calls st) i /\
            exists e, evs = mid ++ [Printed (MsgBatchError e)]))
    end.
Proof.
  unfold details_batch, batch_records, batch_completes.
  change {| videos_part := py "snippet,contentDetails,statistics";
            videos_id := join (py ",") (slice ids i (i + 50)) |}
    with (batch_request ids i).
  set (req := batch_request ids i).
  rewrite bind_run. unfold try_except. rewrite bind_run.
  unfold videos_execute.
  destruct (videos_list_execute api (videos_calls st) req) as [e | response];
    simpl.
  - eexists. split; [| reflexivity].
    unfold bind, print, emit, ret; simpl.
    now rewrite <- !app_assoc, app_nil_r.
  - rewrite bind_run.
    destruct (videos_items response) as [items |] eqn:I.
    + match goal with
      | |- context [for_each items (details_item api) ?s] =>
          destruct (items_run api items s) as [o [E H]]; rewrite E
      end.
      destruct H as [[-> F] | [[e ->] F]].
      * eexists. split.
        -- unfold bind, ret, emit, advance; simpl.
           rewrite <- !app_assoc. simpl. reflexivity.
        -- exists (items_events api items). split.
           ++ apply items_events_quiet.
           ++ left. split; [| reflexivity].
              exists response. split; [reflexivity |].
              intros items' I'. congruence.
      * eexists. split.
        -- unfold bind, ret, print, emit, advance, any_Exception; simpl.
           rewrite <- !app_assoc. simpl. reflexivity.
        -- exists (items_events api items). split.
           ++ apply items_events_quiet.
           ++ right. split; [| eauto].
              intros [response' [R A]]. apply F.
              injection R as <-. now apply A.
    + eexists. split.
      * unfold bind, ret, emit; simpl.
        rewrite <- !app_assoc, app_nil_r. simpl. reflexivity.
      * exists []. split; [constructor |]. left. split; [| reflexivity].
        exists response. split; [reflexivity |]. congruence.
Qed.

Lemma batches_run api ids starts st :
  for_each starts (details_batch api ids) st =
  (Val tt,
   {| trace := trace st ++ batches_events api ids (videos_calls st) starts;
      search_calls := search_calls st;
      videos_calls := videos_calls st + List.length starts;
      video_ids := video_ids st;
      video_data :=
        video_data st
        ++ batches_records api ids (videos_calls st) starts |}).
Proof.
  revert st. induction starts as [| i rest IH]; intro st; simpl.
  - unfold ret. destruct st; simpl.
    now rewrite !app_nil_r, Nat.add_0_r.
  - rewrite bind_run, (local_details_batch api ids i st).
    destruct (details_batch_run api ids i
                (at_calls (videos_calls st))) as [evs [E _]].
    assert (T : trace (snd (details_batch api ids i
                              (at_calls (videos_calls st))))
                = batch_events api ids (videos_calls st) i)
      by reflexivity.
    rewrite E in T |- *. simpl in T |- *.
    rewrite IH. unfold graft; simpl. rewrite T.
    now rewrite <- !app_assoc, Nat.add_succ_r.
Qed.

(** What [get_video_details] returns and leaves behind, from any state. *)
Lemma get_video_details_run api ids st :
  get_video_details api ids st =
  (Val (batches_records api ids (videos_calls st)
          (range 0 (List.length ids) 50)),
   {| trace :=
        trace st
        ++ [Printed (MsgGettingDetails (len ids));
            PbarOpen (len ids) (py "Processing videos")]
        ++ batches_events api ids (videos_calls st)
             (range 0 (List.length ids) 50)
        ++ [PbarClose];
      search_calls := search_calls st;
      videos_calls :=
        videos_calls st + List.length (range 0 (List.length ids) 50);
      video_ids := video_ids st;
      video_data :=
        batches_records api ids (videos_calls st)
          (range 0 (List.length ids) 50) |}).
Proof.
  unfold get_video_details.
  rewrite bind_run. unfold set_video_data, try_except.
  rewrite !bind_run. unfold print, emit. simpl trace. simpl video_data.
  rewrite !bind_run, batches_run. simpl.
  unfold get_video_data; simpl.
  now rewrite <- !app_assoc.
Qed.

(** The shape of the events of one batch. *)
Lemma batch_events_shape api video_ids c i :
  exists evs,
    batch_events api video_ids c i
    = VideosCall (batch_request video_ids i) :: evs /\
    match videos_list_execute api c (batch_request video_ids i) with
    | inl e => evs = [Printed (MsgBatchError e)]
    | inr _ =>
        exists mid,
          Forall (fun ev => item_event ev = true) mid /\
          ((batch_completes api video_ids c i /\ evs = mid ++ [Sleep 100]) \/
           (~ batch_completes api video_ids c i /\
            exists e, evs = mid ++ [Printed (MsgBatchError e)]))
    end.
Proof.
  destruct (details_batch_run api video_ids i (at_calls c)) as [evs [E H]].
  exists evs. split; [| exact H].
  unfold batch_events, events. now rewrite E.
Qed.

Lemma sleeps_app l1 l2 : sleeps (l1 ++ l2) = sleeps l1 + sleeps l2.
Proof. unfold sleeps. now rewrite filter_app, length_app. Qed.

Lemma details_calls_app l1 l2 :
  details_calls (l1 ++ l2) = details_calls l1 + details_calls l2.
Proof. unfold details_calls. now rewrite filter_app, length_app. Qed.

Lemma batch_events_counts api video_ids c i :
  details_calls (batch_events api video_ids c i) = 1 /\
  sleeps (batch_events api video_ids c i) <= 1.
Proof.
  destruct (batch_events_shape api video_ids c i) as [evs [-> H]].
  unfold details_calls, sleeps; simpl.
  destruct (videos_list_execute api c (batch_request video_ids i)).
  - subst evs. simpl. auto.
  - destruct H as [mid [Q H]]. apply quiet_counts in Q.
    unfold sleeps, details_calls in Q. destruct Q as [Q1 Q2].
    destruct H as [[_ ->] | [_ [e ->]]];
      rewrite !filter_app, !length_app, Q1, Q2; simpl; auto.
Qed.

Lemma batches_events_calls api video_ids c starts :
  details_calls (batches_events api video_ids c starts) = List.length starts.
Proof.
  revert c. induction starts as [| i rest IH]; intro c; simpl.
  - reflexivity.
  - rewrite details_calls_app, IH.
    now destruct (batch_events_counts api video_ids c i) as [-> _].
Qed.

Lemma batches_records_app api video_ids c l1 l2 :
  batches_records api video_ids c (l1 ++ l2) =
  batches_records api video_ids c l1
  ++ batches_records api video_ids (c + List.length l1) l2.
Proof.
  revert c. induction l1 as [| i rest IH]; intro c; simpl.
  - now rewrite Nat.add_0_r.
  - now rewrite IH, <- app_assoc, Nat.add_succ_r.
Qed.

(** ** A delay after each batch that ran to its end *)

(** C1 (amended).  The events of [get_video_details] are its header, the
    events of the batches in order, and the closing of the progress bar.
    A batch that runs to the end of its [try] statement ends with the fixed
    delay [time.sleep(0.1)], its only delay.  A batch whose details call
    raises emits the call and the error message and nothing else: its
    handler continues with the next batch, so no delay follows it; nor does
    one follow a batch that raises later on. *)
Theorem delay_after_completed_batches :
  forall api video_ids,
    events (get_video_details api video_ids init)
    = [Printed (MsgGettingDetails (len video_ids));
       PbarOpen (len video_ids) (py "Processing videos")]
      ++ batches_events api video_ids 0 (range 0 (List.length video_ids) 50)
      ++ [PbarClose] /\
    forall c i,
      (batch_completes api video_ids c i ->
       exists mid,
         batch_events api video_ids c i
         = VideosCall (batch_request video_ids i) :: mid ++ [Sleep 100] /\
         sleeps mid = 0) /\
      (forall e,
          videos_list_execute api c (batch_request video_ids i) = inl e ->
          batch_events api video_ids c i
          = [VideosCall (batch_request video_ids i);
             Printed (MsgBatchError e)]) /\
      (~ batch_completes api video_ids c i ->
       sleeps (batch_events api video_ids c i) = 0).
Proof.
  intros api video_ids. split.
  { unfold events. rewrite get_video_details_run. reflexivity. }
  intros c i.
  destruct (batch_events_shape api video_ids c i) as [evs [E H]].
  rewrite E. repeat split.
  - intros C.
    destruct (videos_list_execute api c (batch_request video_ids i)) as [e | r]
      eqn:A.
    + destruct C as [r [C _]]. congruence.
    + destruct H as [mid [Q [[_ ->] | [N _]]]]; [| contradiction].
      exists mid. split; [reflexivity |]. now apply quiet_counts.
  - intros e A. rewrite A in H. now subst evs.
  - intros N.
    destruct (videos_list_execute api c (batch_request video_ids i)) as [e | r].
    + now subst evs.
    + destruct H as [mid [Q [[C _] | [_ [e ->]]]]]; [contradiction |].
      apply quiet_counts in Q. destruct Q as [Q _].
      unfold sleeps in *. simpl. rewrite filter_app, length_app, Q.
      reflexivity.
Qed.

(** ** A failed batch *)

Lemma items_records_failing_at api k e items :
  items_records (failing_at k e api) items = items_records api items.
Proof.
  induction items as [| item rest IH]; simpl; [reflexivity |].
  change (item_record (failing_at k e api) item) with (item_record api item).
  now rewrite IH.
Qed.

Lemma batch_records_failing_at api video_ids k e c i :
  batch_records (failing_at k e api) video_ids c i =
  if c =? k then [] else batch_records api video_ids c i.
Proof.
  unfold batch_records, response_records; simpl.
  destruct (c =? k); [reflexivity |].
  destruct (videos_list_execute api c (batch_request video_ids i));
    [reflexivity |].
  destruct (videos_items v); [| reflexivity].
  apply items_records_failing_at.
Qed.

Lemma batches_records_failing_at api video_ids k e c starts :
  k < c \/ c + List.length starts <= k ->
  batches_records (failing_at k e api) video_ids c starts =
  batches_records api video_ids c starts.
Proof.
  revert c. induction starts as [| i rest IH]; intros c H; simpl.
  - reflexivity.
  - rewrite batch_records_failing_at, IH by (simpl in H; lia).
    destruct (Nat.eqb_spec c k); [simpl in H; lia | reflexivity].
Qed.

(** C2 (amended).  Let the batch that starts at [i] be the one whose details
    call is made to fail, the other answers being the same.  The run with the
    failure returns the records of the run without it less the records that
    batch gave rise to, in the same order: the records of the batches before
    and after it are all there, and every batch is still requested.  The
    number of records lost is the number of records the answer to that batch
    yields, which is the number of its items when all of them are well
    formed; it is the size of the batch only if the answer has one such item
    for each identifier asked for. *)
Theorem failed_batch_drops_its_records :
  forall api video_ids e earlier i later,
    range 0 (List.length video_ids) 50 = earlier ++ i :: later ->
    let k := List.length earlier in
    let before := batches_records api video_ids 0 earlier in
    let lost := batch_records api video_ids k i in
    let after := batches_records api video_ids (S k) later in
    let failed := get_video_details (failing_at k e api) video_ids init in
    returned (get_video_details api video_ids init)
    = Val (before ++ lost ++ after) /\
    returned failed = Val (before ++ after) /\
    List.length (before ++ lost ++ after)
    = List.length (before ++ after) + List.length lost /\
    details_calls (events failed) = List.length (earlier ++ i :: later) /\
    (forall response items,
        videos_list_execute api k (batch_request video_ids i) = inr response ->
        videos_items response = Some items ->
        Forall (well_formed api) items ->
        List.length lost = List.length items).
Proof.
  intros api video_ids e earlier i later R k before lost after failed.
  subst failed. unfold returned, events.
  rewrite !get_video_details_run, R. simpl fst. simpl snd. simpl trace.
  rewrite !batches_records_app. simpl batches_records.
  rewrite ?Nat.add_0_l. fold k.
  rewrite batch_records_failing_at, Nat.eqb_refl.
  rewrite !batches_records_failing_at by (fold k; lia).
  fold before lost after. simpl app.
  repeat split.
  - rewrite !length_app. lia.
  - match goal with
    | |- details_calls (_ :: _ :: ?z) = _ =>
        change (details_calls z = List.length (earlier ++ i :: later))
    end.
    rewrite details_calls_app, batches_events_calls.
    change (details_calls [PbarClose]) with 0. lia.
  - intros response items A I F. subst lost.
    unfold batch_records, response_records. rewrite A, I.
    now apply items_records_length.
Qed.

(** ** The defaults of a record *)



Lemma item_record_uses_defaults api item r :
  item_record api item = Some r -> uses_defaults item r.
Proof.
  unfold item_record. destruct (id item) as [v |]; [| discriminate].
  destruct (returned (video_info api item false (py "") init)) as [r0 | |]
    eqn:V; try discriminate.
  intro H. injection H as <-.
  destruct (video_info_uses_defaults _ _ _ _ _ _ V)
    as [sn [stats [Hs [Ht [Hv [Hc Hg]]]]]].
  exists sn, stats. auto.
Qed.





(** ** A failed transcript *)

Lemma without_with_captions c r :
  without_captions (with_captions c r) = without_captions r.
Proof. reflexivity. Qed.

Lemma items_records_transcripts api lt items :
  map without_captions (items_records (with_transcripts lt api) items) =
  map without_captions (items_records api items).
Proof.
  induction items as [| item rest IH]; simpl; [reflexivity |].
  unfold item_record.
  change (video_info (with_transcripts lt api)) with (video_info api).
  destruct (id item); [| reflexivity].
  destruct (returned (video_info api item false (py "") init));
    try reflexivity.
  simpl. now rewrite IH.
Qed.

Lemma batches_records_transcripts api lt video_ids c starts :
  map without_captions
    (batches_records (with_transcripts lt api) video_ids c starts) =
  map without_captions (batches_records api video_ids c starts).
Proof.
  revert c. induction starts as [| i rest IH]; intro c; simpl.
  - reflexivity.
  - rewrite !map_app, IH. f_equal.
    unfold batch_records, response_records; simpl.
    destruct (videos_list_execute api c (batch_request video_ids i));
      [reflexivity |].
    destruct (videos_items v); [| reflexivity].
    apply items_records_transcripts.
Qed.

Lemma items_records_carry api items :
  Forall (carries_captions api) (items_records api items).
Proof.
  induction items as [| item rest IH]; simpl; [constructor |].
  unfold item_record.
  destruct (id item) as [v |] eqn:I; [| constructor].
  destruct (returned (video_info api item false (py "") init)) as [r | |]
    eqn:V; try constructor; [| exact IH].
  destruct (video_info_url _ _ _ _ _ V) as [v' [I' U]].
  assert (v' = v) by congruence. subst v'.
  exists v. simpl. auto.
Qed.

Lemma batches_records_carry api video_ids c starts :
  Forall (carries_captions api) (batches_records api video_ids c starts).
Proof.
  revert c. induction starts as [| i rest IH]; intro c; simpl.
  - constructor.
  - apply Forall_app. split; [| apply IH].
    unfold batch_records, response_records.
    destruct (videos_list_execute api c (batch_request video_ids i));
      [constructor |].
    destruct (videos_items v); [| constructor].
    apply items_records_carry.
Qed.

Lemma captions_of_failure api video_id :
  captions_failure api video_id -> captions_of api video_id = (false, py "").
Proof.
  intro F. unfold captions_of, returned.
  now rewrite (get_video_captions_failure api video_id init F).
Qed.

(** C7.  Replace the transcript library by any other one, for instance one
    that fails where the first one answered.  [get_video_details] returns as
    many records as before, each equal to the former one but for the two
    caption fields; and every record of a video whose transcript could not
    be obtained has [Captions Available] false and [Caption Text] empty. *)
Theorem transcript_failure_keeps_record :
  forall api transcripts video_ids,
    let api' := with_transcripts transcripts api in
    exists records records',
      returned (get_video_details api video_ids init) = Val records /\
      returned (get_video_details api' video_ids init) = Val records' /\
      List.length records' = List.length records /\
      map without_captions records' = map without_captions records /\
      forall r video_id,
        In r records' ->
        Video_URL r = watch_url video_id ->
        captions_failure api' video_id ->
        Captions_Available r = false /\ Caption_Text r = py "".
Proof.
  intros api lt video_ids api'. subst api'.
  unfold returned. rewrite !get_video_details_run. simpl fst.
  do 2 eexists. split; [reflexivity |]. split; [reflexivity |].
  pose proof (batches_records_transcripts api lt video_ids 0
                (range 0 (List.length video_ids) 50)) as E.
  simpl videos_calls. split; [| split; [exact E |]].
  - apply (f_equal (@List.length _)) in E. now rewrite !length_map in E.
  - intros r v I U F.
    pose proof (batches_records_carry (with_transcripts lt api) video_ids 0
                  (range 0 (List.length video_ids) 50)) as C.
    rewrite Forall_forall in C. destruct (C r I) as [v' [U' [A T]]].
    assert (v' = v).
    { unfold watch_url in *. rewrite U in U'. now apply app_inv_head in U'. }
    subst v'. rewrite (captions_of_failure _ _ F) in A, T. auto.
Qed.

(** ** Pages of the search *)

Lemma collect_nil st : collect st [] = st.
Proof. destruct st; unfold collect; simpl. now rewrite !app_nil_r. Qed.

Lemma collect_cons st v ids :
  collect (collect st [v]) ids = collect st (v :: ids).
Proof. unfold collect; simpl. now rewrite <- !app_assoc. Qed.

Lemma search_item_body_run item st :
  match videoId_of item with
  | Some v => search_item_body item st = (Val tt, collect st [v])
  | None =>
      exists e, search_item_body item st = (Exc e, st) /\
                is_HttpError e = false
  end.
Proof.
  unfold search_item_body, videoId_of, getitem, bind, ret, raise,
    append_video_id, emit, collect.
  destruct (item_id item) as [[v |] |]; simpl; eauto.
Qed.

Lemma search_items_run items st :
  exists o,
    for_each items search_item_body st = (o, collect st (ids_prefix items)) /\
    match page_ids items with
    | Some ids => o = Val tt /\ ids_prefix items = ids
    | None => exists e, o = Exc e /\ is_HttpError e = false
    end.
Proof.
  revert st. induction items as [| item rest IH]; intro st; simpl.
  - exists (Val tt). unfold ret. now rewrite collect_nil.
  - rewrite bind_run.
    pose proof (search_item_body_run item st) as B.
    destruct (videoId_of item) as [v |].
    + rewrite B. destruct (IH (collect st [v])) as [o [E H]].
      exists o. rewrite E, collect_cons. split; [reflexivity |].
      destruct (page_ids rest) as [vs |].
      * destruct H as [-> <-]. auto.
      * exact H.
    + destruct B as [e [-> B]]. exists (Exc e). rewrite collect_nil. eauto.
Qed.

(** One turn of the loop when the page answers and every item of it exposes
    an identifier. *)
Lemma search_turn_page api genre max_results token st response items ids :
  search_list_execute api (search_calls st)
    (page_request genre (Z.min 50 (max_results - len (video_ids st))) token)
  = inr response ->
  search_items response = Some items ->
  page_ids items = Some ids ->
  search_turn api genre max_results token st =
  let st' :=
    collect
      (called st
         (page_request genre
            (Z.min 50 (max_results - len (video_ids st))) token)) ids in
  if (len (video_ids st ++ ids) >=? max_results)%Z then (Val Break, st')
  else if negb (truthy (nextPageToken response))
       then (Val Break, logged st' [Printed MsgNoMoreVideos])
       else (Val (NextTurn (nextPageToken response)), st').
Proof.
  intros A I P. unfold search_turn, try_except.
  rewrite bind_run. unfold get_video_ids at 1.
  rewrite bind_run. unfold search_execute.
  change {| q := genre; part := py "id"; type_ := py "video";
            maxResults := Z.min 50 (max_results - len (video_ids st));
            pageToken := token; order := py "viewCount";
            regionCode := None; relevanceLanguage := py "" |}
    with (page_request genre
            (Z.min 50 (max_results - len (video_ids st))) token).
  rewrite A. unfold lift, ret at 1. rewrite I, bind_run.
  match goal with
  | |- context [for_each items search_item_body ?s] =>
      destruct (search_items_run items s) as [o [E H]]; rewrite E
  end.
  rewrite P in H. destruct H as [-> ->].
  rewrite bind_run. unfold get_video_ids. cbn [video_ids collect called].
  cbv zeta.
  destruct (len (video_ids st ++ ids) >=? max_results)%Z; [reflexivity |].
  destruct (truthy (nextPageToken response)); reflexivity.
Qed.

(** One turn of the loop when the answer has no items. *)
Lemma search_turn_no_items api genre max_results token st response :
  search_list_execute api (search_calls st)
    (page_request genre (Z.min 50 (max_results - len (video_ids st))) token)
  = inr response ->
  search_items response = None ->
  search_turn api genre max_results token st =
  (Val Break,
   logged
     (called st
        (page_request genre
           (Z.min 50 (max_results - len (video_ids st))) token))
     [Printed MsgNoVideosInResponse]).
Proof.
  intros A I. unfold search_turn, try_except.
  rewrite bind_run. unfold get_video_ids at 1.
  rewrite bind_run. unfold search_execute.
  change {| q := genre; part := py "id"; type_ := py "video";
            maxResults := Z.min 50 (max_results - len (video_ids st));
            pageToken := token; order := py "viewCount";
            regionCode := None; relevanceLanguage := py "" |}
    with (page_request genre
            (Z.min 50 (max_results - len (video_ids st))) token).
  rewrite A. unfold lift, ret at 1. rewrite I. reflexivity.
Qed.

(** One turn of the loop when an item of the page exposes no identifier. *)
Lemma search_turn_bad_item api genre max_results token st response items :
  search_list_execute api (search_calls st)
    (page_request genre (Z.min 50 (max_results - len (video_ids st))) token)
  = inr response ->
  search_items response = Some items ->
  page_ids items = None ->
  exists e,
    search_turn api genre max_results token st =
    (Exc e,
     collect
       (called st
          (page_request genre
             (Z.min 50 (max_results - len (video_ids st))) token))
       (ids_prefix items)).
Proof.
  intros A I P. unfold search_turn, try_except.
  rewrite bind_run. unfold get_video_ids at 1.
  rewrite bind_run. unfold search_execute.
  change {| q := genre; part := py "id"; type_ := py "video";
            maxResults := Z.min 50 (max_results - len (video_ids st));
            pageToken := token; order := py "viewCount";
            regionCode := None; relevanceLanguage := py "" |}
    with (page_request genre
            (Z.min 50 (max_results - len (video_ids st))) token).
  rewrite A. unfold lift, ret at 1. rewrite I, bind_run.
  match goal with
  | |- context [for_each items search_item_body ?s] =>
      destruct (search_items_run items s) as [o [E H]]; rewrite E
  end.
  rewrite P in H. destruct H as [e [-> H]]. rewrite H.
  exists e. reflexivity.
Qed.

Lemma search_while_done api fuel genre max_results token st :
  (len (video_ids st) <? max_results)%Z = false ->
  search_while api fuel genre max_results token st = (Val tt, st).
Proof.
  intro H. destruct fuel; simpl; unfold bind, get_video_ids; simpl;
    now rewrite H.
Qed.

Lemma search_while_turn api fuel genre max_results token st :
  (len (video_ids st) <? max_results)%Z = true ->
  search_while api (S fuel) genre max_results token st =
  match search_turn api genre max_results token st with
  | (Val Break, st') => (Val tt, st')
  | (Val (NextTurn next_page_token), st') =>
      search_while api fuel genre max_results next_page_token st'
  | (Exc e, st') => (Exc e, st')
  | (OutOfFuel, st') => (OutOfFuel, st')
  end.
Proof.
  intro H. simpl. unfold bind at 1, get_video_ids at 1. simpl. rewrite H.
  rewrite bind_run.
  destruct (search_turn api genre max_results token st) as [[[| t] | e |] st'];
    reflexivity.
Qed.

(** What [search_videos_by_genre] returns, given what its loop does. *)
Lemma search_videos_by_genre_run api fuel genre max_results st :
  search_videos_by_genre api fuel genre max_results st =
  match search_while api fuel genre max_results None
          (logged (snd (set_video_ids [] st))
             [Printed (MsgSearching max_results); Printed (MsgGenre genre);
              PbarOpen max_results (py "Collecting video IDs")]) with
  | (Val _, st') =>
      (Val (video_ids st'),
       logged st' [PbarClose; Printed (MsgTotalFound (len (video_ids st')))])
  | (Exc e, st') => (Val [], logged st' [Printed (MsgSearchError e)])
  | (OutOfFuel, st') => (OutOfFuel, st')
  end.
Proof.
  unfold search_videos_by_genre.
  rewrite bind_run. unfold set_video_ids at 1, try_except.
  rewrite !bind_run. unfold print, emit. cbn [snd set_video_ids].
  rewrite !bind_run.
  match goal with
  | |- context [search_while api fuel genre max_results None ?s] =>
      replace s with
        (logged
           {| trace := trace st; search_calls := search_calls st;
              videos_calls := videos_calls st; video_ids := [];
              video_data := video_data st |}
           [Printed (MsgSearching max_results); Printed (MsgGenre genre);
            PbarOpen max_results (py "Collecting video IDs")])
        by (unfold logged; simpl; now rewrite <- !app_assoc)
  end.
  destruct (search_while api fuel genre max_results None _)
    as [[[] | e |] st'].
  - unfold bind, get_video_ids, ret, logged, any_Exception; simpl.
    now rewrite <- !app_assoc.
  - reflexivity.
  - reflexivity.
Qed.

Lemma searches_app l1 l2 : searches (l1 ++ l2) = searches l1 + searches l2.
Proof. unfold searches. now rewrite filter_app, length_app. Qed.

Lemma no_search_in_progress n :
  filter is_SearchCall (repeat (PbarUpdate 1) n) = [].
Proof. induction n; simpl; auto. Qed.

(** ** A first page without a cursor *)

(** C4.  Let a first page be asked for ([max_results] positive) and let the
    answer to it carry no cursor.  Then [search_videos_by_genre] makes this
    one search call and returns: the identifiers of that page when every
    item of it exposes one, and the empty list when the answer has no items
    or an item without an identifier. *)
Theorem single_page_without_cursor :
  forall api fuel genre max_results response,
    (0 < max_results)%Z ->
    search_list_execute api 0
      (page_request genre (Z.min 50 max_results) None) = inr response ->
    truthy (nextPageToken response) = false ->
    let run := search_videos_by_genre api (S fuel) genre max_results init in
    searches (events run) = 1 /\
    search_calls (snd run) = 1 /\
    returned run =
      Val match search_items response with
          | Some items =>
              match page_ids items with
              | Some ids => ids
              | None => []
              end
          | None => []
          end.
Proof.
  intros api fuel genre max_results response Hpos A T run. subst run.
  unfold returned, events. rewrite search_videos_by_genre_run.
  set (st1 := logged (snd (set_video_ids [] init)) _).
  assert (L : (len (video_ids st1) <? max_results)%Z = true)
    by (apply Z.ltb_lt; exact Hpos).
  assert (A' : search_list_execute api (search_calls st1)
                 (page_request genre
                    (Z.min 50 (max_results - len (video_ids st1))) None)
               = inr response).
  { change (len (video_ids st1)) with 0%Z. now rewrite Z.sub_0_r. }
  rewrite search_while_turn by exact L.
  destruct (search_items response) as [items |] eqn:I.
  - destruct (page_ids items) as [ids |] eqn:P.
    + rewrite (search_turn_page _ _ _ _ _ _ _ _ A' I P). cbv zeta.
      destruct (len (video_ids st1 ++ ids) >=? max_results)%Z.
      * cbn. rewrite filter_app, no_search_in_progress. auto.
      * rewrite T. cbn. rewrite !filter_app, no_search_in_progress. auto.
    + destruct (search_turn_bad_item _ _ _ _ _ _ _ A' I P) as [e ->].
      cbn. rewrite !filter_app, no_search_in_progress. auto.
  - rewrite (search_turn_no_items _ _ _ _ _ _ A' I). cbn. auto.
Qed.

(** ** Pagination over a collaborator that pages through a list *)

Lemma firstn_add_skipn {A} (a b : nat) (l : list A) :
  firstn (a + b) l = firstn a l ++ firstn b (skipn a l).
Proof.
  revert l. induction a as [| a IH]; intro l; simpl.
  - reflexivity.
  - destruct l as [| x l]; simpl.
    + now rewrite firstn_nil.
    + now rewrite IH.
Qed.

Lemma page_ids_items ids : page_ids (map item_of ids) = Some ids.
Proof.
  induction ids as [| v rest IH]; simpl; [reflexivity |].
  now rewrite IH.
Qed.

Section Pagination.

Variable api : collaborators.
Variable genre : str.
Variable max_results : Z.

(** The identifiers the search collaborator has for the query. *)
Variable available : list str.

(** [serves k token remaining]: when the call number [k] is made with the
    cursor [token], the identifiers still to be served are [remaining]. *)
Variable serves : nat -> option str -> list str -> Prop.

Hypothesis serves_first : serves 0 None available.

(** Every page call succeeds and returns as many items as were asked for, up
    to what remains; it carries a cursor while identifiers remain after the
    page, and none once a page finds nothing left. *)
Hypothesis serves_page :
  forall k token remaining n,
    serves k token remaining ->
    (1 <= n <= 50)%Z ->
    exists next,
      search_list_execute api k (page_request genre n token)
      = inr {| search_items :=
                 Some (map item_of (firstn (Z.to_nat n) remaining));
               nextPageToken := next |} /\
      (remaining = [] -> truthy next = false) /\
      (skipn (Z.to_nat n) remaining <> [] -> truthy next = true) /\
      (truthy next = true ->
       serves (S k) next (skipn (Z.to_nat n) remaining)).

Lemma search_while_paged :
  forall fuel remaining token st,
    serves (search_calls st) token remaining ->
    List.length remaining < fuel ->
    exists st',
      search_while api fuel genre max_results token st = (Val tt, st') /\
      video_ids st' =
      video_ids st
      ++ firstn (Z.to_nat (max_results - len (video_ids st))) remaining.
Proof.
  induction fuel as [| fuel IH]; intros remaining token st Sv Hf; [lia |].
  destruct (len (video_ids st) <? max_results)%Z eqn:L.
  2: { rewrite search_while_done by exact L. exists st. split; [reflexivity |].
       apply Z.ltb_ge in L.
       replace (Z.to_nat (max_results - len (video_ids st))) with 0 by lia.
       simpl. now rewrite app_nil_r. }
  rewrite search_while_turn by exact L. apply Z.ltb_lt in L.
  set (n := Z.min 50 (max_results - len (video_ids st))).
  assert (Hn : (1 <= n <= 50)%Z) by (subst n; lia).
  destruct (serves_page _ _ _ n Sv Hn) as [next [A [H1 [H2 H3]]]].
  set (page := firstn (Z.to_nat n) remaining) in *.
  rewrite (search_turn_page api genre max_results token st _
             (map item_of page) page A eq_refl (page_ids_items page)).
  cbv zeta. cbn [nextPageToken]. fold n.
  assert (Lp : List.length page = Nat.min (Z.to_nat n) (List.length remaining))
    by apply length_firstn.
  set (M := Z.to_nat (max_results - len (video_ids st))).
  assert (HM : Z.to_nat n <= M) by (subst M n; lia).
  destruct (len (video_ids st ++ page) >=? max_results)%Z eqn:G.
  - eexists. split; [reflexivity |]. cbn [video_ids collect called].
    f_equal. unfold page. f_equal.
    apply Z.geb_le in G. unfold len in G, L. rewrite length_app in G.
    unfold M, len in *. lia.
  - rewrite Z.geb_leb in G. apply Z.leb_gt in G.
    destruct (truthy next) eqn:Tk; cbn [negb].
    + assert (Hne : remaining <> []).
      { intro E. apply H1 in E. congruence. }
      assert (Hlen : List.length (skipn (Z.to_nat n) remaining) < fuel).
      { rewrite length_skipn.
        assert (0 < List.length remaining)
          by (destruct remaining; [congruence | simpl; lia]).
        lia. }
      destruct (IH (skipn (Z.to_nat n) remaining) next
                  (collect (called st (page_request genre n token)) page)
                  (H3 eq_refl) Hlen)
        as [st' [E V]].
      exists st'. split; [exact E |]. rewrite V.
      cbn [video_ids collect called]. rewrite <- app_assoc. f_equal.
      replace M with (Z.to_nat n + (M - Z.to_nat n)) by lia.
      rewrite firstn_add_skipn. fold page. f_equal.
      destruct (le_lt_dec (Z.to_nat n) (List.length remaining)) as [C | C].
      * f_equal. unfold len in G, L |- *. rewrite length_app in G |- *.
        unfold M, len in *. lia.
      * rewrite skipn_all2 by lia. now rewrite !firstn_nil.
    + eexists. split; [reflexivity |]. cbn [video_ids collect called logged].
      f_equal.
      assert (Hs : List.length remaining <= Z.to_nat n).
      { destruct (skipn (Z.to_nat n) remaining) eqn:Sk.
        - apply (f_equal (@List.length _)) in Sk.
          rewrite length_skipn in Sk. simpl in Sk. lia.
        - assert (false = true) by (apply H2; discriminate).
          discriminate. }
      unfold page. rewrite !firstn_all2 by lia. reflexivity.
Qed.

(** C3.  Let every page call succeed and return as many items as were asked
    for, up to what remains of the identifiers available, and let
    [max_results] be positive.  Then, given fuel for more turns than there
    are identifiers, [search_videos_by_genre] returns the first
    [max_results] identifiers available: a list of length
    [min(max_results, number available)]. *)
Theorem paginated_search_length :
  forall fuel,
    (0 < max_results)%Z ->
    List.length available < fuel ->
    exists ids,
      returned (search_videos_by_genre api fuel genre max_results init)
      = Val ids /\
      ids = firstn (Z.to_nat max_results) available /\
      len ids = Z.min max_results (len available).
Proof.
  intros fuel Hpos Hf. unfold returned.
  rewrite search_videos_by_genre_run.
  set (st1 := logged (snd (set_video_ids [] init)) _).
  destruct (search_while_paged fuel available None st1 serves_first Hf)
    as [st' [E V]].
  rewrite E. cbn [fst].
  change (video_ids st1) with (@nil str) in V.
  change (len (@nil str)) with 0%Z in V.
  rewrite Z.sub_0_r in V. simpl in V.
  exists (video_ids st'). repeat split; [exact V |].
  rewrite V. unfold len. rewrite length_firstn. lia.
Qed.

End Pagination.

(** ** The file of the topic *)

Lemma captions_emit_no_file api video_id :
  emits_only not_a_file (get_video_captions api video_id).
Proof.
  assert (T : forall caption_data, emits_only not_a_file
                                     (entry_texts caption_data)).
  { induction caption_data as [| entry rest IH]; simpl; repeat emits_step.
    apply IH. }
  unfold get_video_captions. repeat emits_step. apply T.
Qed.

Lemma details_emit_no_file api video_ids :
  emits_only not_a_file (get_video_details api video_ids).
Proof.
  unfold get_video_details, details_batch, details_item, video_info.
  repeat emits_step. apply captions_emit_no_file.
Qed.

(** [collect_data] writes no file but the one named after the sanitized
    topic. *)
Lemma collect_data_emits api unicode_isalnum fuel genre :
  emits_only (no_file_but (output_file api unicode_isalnum (py "output") genre))
    (collect_data api unicode_isalnum fuel genre).
Proof.
  assert (N : forall ev,
             not_a_file ev ->
             no_file_but (output_file api unicode_isalnum (py "output") genre)
               ev)
    by (intros [] H; simpl in *; auto; contradiction).
  unfold collect_data. apply emits_try_except; [| intro e; repeat emits_step].
  apply emits_bind; [apply emits_emit; exact I | intros _].
  apply emits_bind; [apply emits_emit; exact I | intros _].
  apply emits_bind; [apply emits_emit; exact I | intros _].
  apply emits_bind; [apply emits_lift | intros _].
  apply emits_bind;
    [eapply emits_weaken; [exact N | apply search_emits_no_file] |].
  intros [| v ids]; [apply emits_emit; exact I |].
  apply emits_bind;
    [eapply emits_weaken; [exact N | apply details_emit_no_file] |].
  intros [| r records]; [apply emits_emit; exact I |].
  apply emits_bind; [apply emits_emit; reflexivity | intros _].
  repeat emits_step.
Qed.

(** C9.  The sanitized topic is what remains of the characters of the topic
    that are alphanumeric, a space, a hyphen or an underscore, once the
    white space at both ends is stripped: every character of it is one of
    those, every other character of the topic is dropped, and nothing but
    white space at the two ends is removed from the kept characters.  The
    file name [collect_data] writes to is built from it, and the topic
    "rock/metal!" gives "rockmetal". *)
Theorem safe_genre_keeps_only :
  forall api unicode_isalnum genre,
    (forall c, In c (safe_genre unicode_isalnum genre) ->
               In c genre /\
               (isalnum unicode_isalnum c = true \/ In c (py " -_"))) /\
    (exists pre post,
        filter (keeps unicode_isalnum) genre
        = pre ++ safe_genre unicode_isalnum genre ++ post /\
        Forall (fun c => isspace c = true) pre /\
        Forall (fun c => isspace c = true) post) /\
    (forall fuel path rows,
        In (ToCsv path rows)
           (events (collect_data api unicode_isalnum fuel genre init)) ->
        path = py "output" ++ os_sep api ++ py "youtube_"
               ++ safe_genre unicode_isalnum genre ++ py "_" ++ now_stamp api
               ++ py ".csv") /\
    safe_genre unicode_isalnum (py "rock/metal!") = py "rockmetal".
Proof.
  intros api u genre.
  destruct (strip_split (filter (keeps u) genre)) as [pre [post [E [F1 F2]]]].
  fold (safe_genre u genre) in E.
  repeat split.
  - assert (I : In c (filter (keeps u) genre)).
    { rewrite E. apply in_or_app. right. apply in_or_app. now left. }
    apply filter_In in I. tauto.
  - assert (I : In c (filter (keeps u) genre)).
    { rewrite E. apply in_or_app. right. apply in_or_app. now left. }
    apply filter_In in I. destruct I as [_ K]. unfold keeps in K.
    apply orb_true_iff in K. destruct K as [K | K]; [now left | right].
    now apply char_in_In in K.
  - exists pre, post. auto.
  - intros fuel path rows H.
    destruct (collect_data_emits api u fuel genre init) as [evs [T F]].
    unfold events in H. rewrite T in H. simpl in H.
    rewrite Forall_forall in F. apply (F _ H).
Qed.

(** ** The properties on concrete collaborators *)

(** C1, as stated, fails: with a details collaborator out of quota, the one
    batch of the one identifier is requested, its failure is printed, and the
    progress bar is closed; no delay is emitted after the failed batch. *)
Lemma no_delay_after_failed_batch :
  events (get_video_details Scenario.out_of_quota [py "a"] init)
  = [Printed (MsgGettingDetails 1); PbarOpen 1 (py "Processing videos");
     VideosCall (batch_request [py "a"] 0);
     Printed (MsgBatchError Scenario.quota_exceeded); PbarClose] /\
  details_calls (events (get_video_details Scenario.out_of_quota [py "a"] init))
  = 1 /\
  sleeps (events (get_video_details Scenario.out_of_quota [py "a"] init)) = 0.
Proof. repeat split; reflexivity. Qed.

Lemma delay_after_completed_batches_witness :
  exists mid,
    batch_events Scenario.one_page [py "a"] 0 0
    = VideosCall (batch_request [py "a"] 0) :: mid ++ [Sleep 100] /\
    sleeps mid = 0.
Proof.
  apply (proj2 (delay_after_completed_batches Scenario.one_page [py "a"]) 0 0).
  exists {| videos_items := Some [Scenario.complete_item (py "a")] |}.
  split; [reflexivity |].
  intros items E. injection E as <-.
  constructor; [| constructor]. eexists. reflexivity.
Defined.

(** C2, as stated, fails: asked for the videos "a" and "b", the details
    collaborator answers with the item of "a" only.  The run in which the
    call succeeds returns one record and the run in which it fails returns
    none: one record fewer, while the batch has two identifiers. *)
Lemma lost_records_not_batch_size :
  range 0 (List.length [py "a"; py "b"]) 50 = [0] /\
  (exists response,
      videos_list_execute Scenario.one_page 0
        (batch_request [py "a"; py "b"] 0) = inr response) /\
  record_count
    (returned (get_video_details Scenario.one_page [py "a"; py "b"] init))
  = Some 1 /\
  record_count
    (returned (get_video_details
                 (failing_at 0 Scenario.quota_exceeded Scenario.one_page)
                 [py "a"; py "b"] init))
  = Some 0 /\
  List.length (slice [py "a"; py "b"] 0 (0 + 50)) = 2.
Proof.
  split; [reflexivity |].
  split; [eexists; reflexivity |].
  split; [vm_compute; reflexivity |].
  split; vm_compute; reflexivity.
Qed.

Lemma failed_batch_drops_its_records_witness :
  range 0 (List.length Scenario.catalogue) 50 = [0] ++ 50 :: [100] /\
  details_calls
    (events (get_video_details
               (failing_at 1 Scenario.quota_exceeded Scenario.studio)
               Scenario.catalogue init)) = 3.
Proof.
  split; [reflexivity |].
  exact (proj1 (proj2 (proj2 (proj2
           (failed_batch_drops_its_records Scenario.studio Scenario.catalogue
              Scenario.quota_exceeded [0] 50 [100] eq_refl))))).
Defined.

(** The paging endpoint of the scenario serves the catalogue as C3
    assumes. *)
Lemma paging_serves genre :
  forall k token remaining n,
    Scenario.left_at k token remaining ->
    (1 <= n <= 50)%Z ->
    exists next,
      search_list_execute Scenario.studio k (page_request genre n token)
      = inr {| search_items :=
                 Some (map item_of (firstn (Z.to_nat n) remaining));
               nextPageToken := next |} /\
      (remaining = [] -> truthy next = false) /\
      (skipn (Z.to_nat n) remaining <> [] -> truthy next = true) /\
      (truthy next = true ->
       Scenario.left_at (S k) next (skipn (Z.to_nat n) remaining)).
Proof.
  intros k token remaining n L Hn. unfold Scenario.left_at in *. subst.
  set (remaining := skipn (Scenario.offset_of token) Scenario.catalogue).
  exists (match skipn (Z.to_nat n) remaining with
          | [] => None
          | _ :: _ =>
              Some (Scenario.token_of (Scenario.offset_of token + Z.to_nat n))
          end).
  split; [reflexivity |].
  assert (T : truthy (Some (Scenario.token_of
                              (Scenario.offset_of token + Z.to_nat n)))
              = true).
  { destruct (Z.to_nat n) as [| m] eqn:E; [lia |].
    rewrite Nat.add_succ_r. reflexivity. }
  repeat split.
  - intros ->. now rewrite skipn_nil.
  - destruct (skipn (Z.to_nat n) remaining); [congruence | intros _; exact T].
  - destruct (skipn (Z.to_nat n) remaining) eqn:S; [discriminate |].
    intros _. rewrite <- S. unfold remaining, Scenario.offset_of at 2.
    unfold Scenario.token_of. rewrite repeat_length, skipn_skipn.
    f_equal. lia.
Qed.

Lemma paginated_search_length_witness :
  (0 < 500)%Z /\
  List.length Scenario.catalogue < 200 /\
  exists ids,
    returned (search_videos_by_genre Scenario.studio 200 (py "chess") 500 init)
    = Val ids /\
    ids = firstn (Z.to_nat 500) Scenario.catalogue /\
    len ids = Z.min 500 (len Scenario.catalogue).
Proof.
  assert (L : List.length Scenario.catalogue < 200)
    by (unfold Scenario.catalogue; rewrite length_map, length_seq; lia).
  split; [reflexivity |]. split; [exact L |].
  exact (paginated_search_length Scenario.studio (py "chess") 500
           Scenario.catalogue Scenario.left_at eq_refl
           (paging_serves (py "chess")) 200 eq_refl L).
Defined.

Lemma single_page_without_cursor_witness :
  (0 < 500)%Z /\
  returned (search_videos_by_genre Scenario.one_page 1 (py "chess") 500 init)
  = Val [py "a"; py "b"].
Proof.
  split; [reflexivity |].
  exact (proj2 (proj2
           (single_page_without_cursor Scenario.one_page 0 (py "chess") 500
              {| search_items := Some [item_of (py "a"); item_of (py "b")];
                 nextPageToken := None |}
              eq_refl eq_refl eq_refl))).
Defined.


Lemma get_video_captions_total_witness :
  captions_failure Scenario.studio (py "b") /\
  returned (get_video_captions Scenario.studio (py "b") init)
  = Val (false, py "").
Proof.
  assert (F : captions_failure Scenario.studio (py "b"))
    by (apply no_tracks with (e := OtherError (py "TranscriptsDisabled"));
        reflexivity).
  split; [exact F |].
  exact (proj2 (get_video_captions_total Scenario.studio (py "b") init) F).
Defined.

Lemma transcript_failure_keeps_record_witness :
  exists records records',
    returned (get_video_details Scenario.one_page [py "a"] init)
    = Val records /\
    returned (get_video_details
                (with_transcripts Scenario.no_transcripts Scenario.one_page)
                [py "a"] init) = Val records' /\
    List.length records' = List.length records.
Proof.
  destruct (transcript_failure_keeps_record Scenario.one_page
              Scenario.no_transcripts [py "a"])
    as [records [records' [H1 [H2 [H3 _]]]]].
  exists records, records'. auto.
Defined.

Lemma search_nothing_requested_witness :
  (-3 <= 0)%Z /\
  returned (search_videos_by_genre Scenario.studio 0 (py "chess") (-3)%Z init)
  = Val [].
Proof.
  split; [lia |].
  apply (search_nothing_requested Scenario.studio 0 (py "chess") (-3)%Z init).
  lia.
Defined.

(** The scenario of the specification: three pages of 50, 50 and 20
    identifiers, then no cursor; three batches, all answered. *)
Example chess_pages :
  returned (search_videos_by_genre Scenario.studio 4 (py "chess") 500 init)
  = Val Scenario.catalogue /\
  searches (events (search_videos_by_genre Scenario.studio 4 (py "chess")
                      500 init)) = 3.
Proof. split; vm_compute; reflexivity. Qed.

Example chess_batches :
  match returned (get_video_details Scenario.studio Scenario.catalogue init)
  with
  | Val records => List.length records = 120
  | _ => False
  end /\
  details_calls
    (events (get_video_details Scenario.studio Scenario.catalogue init)) = 3 /\
  sleeps (events (get_video_details Scenario.studio Scenario.catalogue init))
  = 3.
Proof. split; [| split]; vm_compute; reflexivity. Qed.

(** The file [collect_data] writes for the topic "rock/metal!". *)
Example rock_metal_file :
  files_written
    (events (collect_data Scenario.studio Scenario.ascii_only 4
               (py "rock/metal!") init))
  = [(py "output/youtube_rockmetal_20240101_120000.csv", 120)].
Proof. vm_compute. reflexivity. Qed.

(** * Further properties *)

(** ** The batches of the identifiers *)

Lemma range_from_bounds fuel start stop step i :
  In i (range_from fuel start stop step) -> start <= i < stop.
Proof.
  revert start. induction fuel as [| fuel IH]; intro start; simpl;
    [contradiction |].
  destruct (Nat.ltb_spec start stop); [| contradiction].
  intros [<- | H']; [lia |]. apply IH in H'. lia.
Qed.

Lemma range_from_length fuel start stop :
  stop - start <= fuel ->
  List.length (range_from fuel start stop 50) = (stop - start + 49) / 50.
Proof.
  revert start. induction fuel as [| fuel IH]; intros start H;
    cbn [range_from].
  - replace (stop - start) with 0 by lia. reflexivity.
  - destruct (Nat.ltb_spec start stop) as [L | L].
    + cbn [List.length]. rewrite IH by lia.
      destruct (le_lt_dec 50 (stop - start)) as [B | B].
      * replace (stop - start + 49) with (stop - (start + 50) + 49 + 1 * 50)
          by lia.
        rewrite Nat.div_add by lia. lia.
      * replace (stop - (start + 50)) with 0 by lia.
        rewrite Nat.add_0_l, (Nat.div_small 49 50) by lia.
        apply (Nat.div_unique _ 50 1 (stop - start - 1)); lia.
    + replace (stop - start) with 0 by lia. reflexivity.
Qed.

Lemma range_from_concat {A} (xs : list A) fuel start :
  List.length xs - start <= fuel ->
  List.concat (map (fun i => slice xs i (i + 50))
            (range_from fuel start (List.length xs) 50))
  = skipn start xs.
Proof.
  revert start. induction fuel as [| fuel IH]; intros start H; simpl.
  - symmetry. apply skipn_all2. lia.
  - destruct (Nat.ltb_spec start (List.length xs)) as [L | L].
    + simpl. rewrite IH by lia. unfold slice.
      replace (start + 50 - start) with 50 by lia.
      replace (start + 50) with (50 + start) by lia.
      rewrite <- skipn_skipn. apply firstn_skipn.
    + symmetry. apply skipn_all2. lia.
Qed.

(** X7.  The batches [video_ids[i : i + 50]] for [i] in
    [range(0, len(video_ids), 50)] partition the identifiers: put end to
    end they are the input, each has between 1 and 50 identifiers, and
    there are [ceil(n / 50)] of them. *)
Theorem batches_partition :
  forall video_ids : list str,
    let starts := range 0 (List.length video_ids) 50 in
    List.concat (map (fun i => slice video_ids i (i + 50)) starts) = video_ids /\
    Forall (fun i => 1 <= List.length (slice video_ids i (i + 50)) <= 50)
      starts /\
    List.length starts = (List.length video_ids + 49) / 50.
Proof.
  intros video_ids starts. subst starts. unfold range. repeat split.
  - rewrite range_from_concat by lia. reflexivity.
  - apply Forall_forall. intros i I. apply range_from_bounds in I.
    unfold slice. rewrite length_firstn, length_skipn. lia.
  - rewrite range_from_length by lia. now rewrite Nat.sub_0_r.
Qed.

(** ** The details calls *)

Lemma videos_requests_app l1 l2 :
  videos_requests (l1 ++ l2) = videos_requests l1 ++ videos_requests l2.
Proof. unfold videos_requests. apply flat_map_app. Qed.

Lemma quiet_no_requests evs :
  Forall (fun ev => item_event ev = true) evs -> videos_requests evs = [].
Proof.
  induction 1 as [| ev rest H _ IH]; simpl; [reflexivity |].
  destruct ev; simpl in *; try discriminate; exact IH.
Qed.

Lemma batch_events_requests api video_ids c i :
  videos_requests (batch_events api video_ids c i)
  = [batch_request video_ids i].
Proof.
  destruct (batch_events_shape api video_ids c i) as [evs [-> H]].
  simpl. f_equal.
  destruct (videos_list_execute api c (batch_request video_ids i)).
  - now subst evs.
  - destruct H as [mid [Q H]]. apply quiet_no_requests in Q.
    destruct H as [[_ ->] | [_ [e ->]]];
      rewrite videos_requests_app, Q; reflexivity.
Qed.

Lemma batches_events_requests api video_ids c starts :
  videos_requests (batches_events api video_ids c starts)
  = map (batch_request video_ids) starts.
Proof.
  revert c. induction starts as [| i rest IH]; intro c; simpl.
  - reflexivity.
  - now rewrite videos_requests_app, batch_events_requests, IH.
Qed.

(** X6.  Whatever the collaborators answer, [get_video_details] makes one
    details call for each batch, in the order of the batches, asking for the
    comma-joined identifiers of the batch: [ceil(n / 50)] calls for [n]
    identifiers, failed batches included. *)
Theorem details_requests_in_order :
  forall api video_ids,
    videos_requests (events (get_video_details api video_ids init))
    = map (fun i =>
             {| videos_part := py "snippet,contentDetails,statistics";
                videos_id := join (py ",") (slice video_ids i (i + 50)) |})
          (range 0 (List.length video_ids) 50) /\
    details_calls (events (get_video_details api video_ids init))
    = (List.length video_ids + 49) / 50.
Proof.
  intros api video_ids. unfold events.
  rewrite get_video_details_run. cbn [snd trace app videos_calls init].
  split.
  - change (videos_requests
              (batches_events api video_ids 0
                 (range 0 (List.length video_ids) 50) ++ [PbarClose])
            = map (batch_request video_ids)
                (range 0 (List.length video_ids) 50)).
    rewrite videos_requests_app, batches_events_requests. simpl.
    now rewrite app_nil_r.
  - change (details_calls
              (batches_events api video_ids 0
                 (range 0 (List.length video_ids) 50) ++ [PbarClose])
            = (List.length video_ids + 49) / 50).
    rewrite details_calls_app, batches_events_calls.
    change (details_calls [PbarClose]) with 0.
    unfold range. rewrite range_from_length by lia.
    now rewrite Nat.add_0_r, Nat.sub_0_r.
Qed.

(** ** get_video_details always returns *)

Lemma batches_records_all_fail api video_ids c starts :
  (forall c i, exists e,
      videos_list_execute api c (batch_request video_ids i) = inl e) ->
  batches_records api video_ids c starts = [].
Proof.
  intro F. revert c. induction starts as [| i rest IH]; intro c; simpl.
  - reflexivity.
  - rewrite IH. unfold batch_records.
    destruct (F c i) as [e ->]. reflexivity.
Qed.

(** X8.  [get_video_details] returns a list whatever happens: no exception
    leaves it and its loops end.  On an empty input it makes no details call
    and returns the empty list, having printed its header and opened and
    closed the progress bar; when every details call fails it returns the
    empty list as well. *)
Theorem get_video_details_always_returns :
  forall api video_ids st,
    (exists records,
        returned (get_video_details api video_ids st) = Val records /\
        video_data (snd (get_video_details api video_ids st)) = records) /\
    (video_ids = [] ->
     returned (get_video_details api video_ids st) = Val [] /\
     events (get_video_details api video_ids st)
     = trace st ++ [Printed (MsgGettingDetails 0);
                    PbarOpen 0 (py "Processing videos"); PbarClose]) /\
    ((forall c i, exists e,
         videos_list_execute api c (batch_request video_ids i) = inl e) ->
     returned (get_video_details api video_ids st) = Val []).
Proof.
  intros api video_ids st. unfold returned, events.
  rewrite get_video_details_run. cbn [fst snd trace video_data].
  split; [| split].
  - eexists. split; reflexivity.
  - intros ->. split; reflexivity.
  - intro F. now rewrite batches_records_all_fail.
Qed.

Lemma get_video_details_always_returns_witness :
  returned (get_video_details Scenario.out_of_quota Scenario.catalogue init)
  = Val [].
Proof.
  apply (proj2 (proj2 (get_video_details_always_returns
                         Scenario.out_of_quota Scenario.catalogue init))).
  intros c i. exists Scenario.quota_exceeded. reflexivity.
Defined.

(** ** The progress bar and the records *)

Lemma progress_app l1 l2 : progress (l1 ++ l2) = progress l1 + progress l2.
Proof. unfold progress. now rewrite filter_app, length_app. Qed.

Lemma captions_events_no_progress api video_id :
  progress (captions_events api video_id) = 0.
Proof.
  unfold captions_events, events.
  captions_cases api video_id; reflexivity.
Qed.

Lemma items_events_progress api items :
  progress (items_events api items)
  = List.length (items_records api items).
Proof.
  induction items as [| item rest IH]; simpl; [reflexivity |].
  rewrite progress_app. unfold item_events.
  destruct (item_record api item) as [r |] eqn:E.
  - unfold item_record in E. destruct (id item) as [v |]; [| discriminate].
    rewrite progress_app, captions_events_no_progress, IH. reflexivity.
  - destruct (id item) as [v |]; [| reflexivity].
    rewrite progress_app, captions_events_no_progress. reflexivity.
Qed.

(** The events of a batch, with the events of its items spelled out. *)
Lemma batch_events_items api video_ids c i :
  exists last,
    is_PbarUpdate last = false /\
    batch_events api video_ids c i =
    VideosCall (batch_request video_ids i)
    :: match videos_list_execute api c (batch_request video_ids i) with
       | inl _ => []
       | inr response =>
           match videos_items response with
           | Some items => items_events api items
           | None => []
           end
       end ++ [last].
Proof.
  unfold batch_events, events, details_batch.
  change {| videos_part := py "snippet,contentDetails,statistics";
            videos_id := join (py ",") (slice video_ids i (i + 50)) |}
    with (batch_request video_ids i).
  set (req := batch_request video_ids i).
  rewrite bind_run. unfold try_except. rewrite bind_run.
  unfold videos_execute. cbn [videos_calls at_calls].
  destruct (videos_list_execute api c req) as [e | response]; simpl.
  - exists (Printed (MsgBatchError e)). split; reflexivity.
  - rewrite bind_run.
    destruct (videos_items response) as [items |].
    + match goal with
      | |- context [for_each items (details_item api) ?s] =>
          destruct (items_run api items s) as [o [E H]]; rewrite E
      end.
      destruct H as [[-> _] | [[e ->] _]].
      * exists (Sleep 100). split; [reflexivity |].
        unfold bind, ret, emit, advance; simpl. reflexivity.
      * exists (Printed (MsgBatchError e)). split; [reflexivity |].
        unfold bind, ret, print, emit, advance, any_Exception; simpl.
        reflexivity.
    + exists (Sleep 100). split; reflexivity.
Qed.

Lemma batches_events_progress api video_ids c starts :
  progress (batches_events api video_ids c starts)
  = List.length (batches_records api video_ids c starts).
Proof.
  revert c. induction starts as [| i rest IH]; intro c; simpl.
  - reflexivity.
  - rewrite progress_app, length_app, IH. f_equal.
    destruct (batch_events_items api video_ids c i) as [last [L ->]].
    unfold batch_records, response_records.
    change (progress (VideosCall (batch_request video_ids i) :: ?l))
      with (progress l).
    rewrite progress_app.
    replace (progress [last]) with 0
      by (unfold progress; simpl; now rewrite L).
    rewrite Nat.add_0_r.
    destruct (videos_list_execute api c (batch_request video_ids i));
      [reflexivity |].
    destruct (videos_items v); [| reflexivity].
    apply items_events_progress.
Qed.

(** X9.  The progress bar of [get_video_details] is opened with the number
    of identifiers as its total and moves once for each record appended:
    the number of [pbar.update(1)] in the trace is the number of records
    returned, which falls short of the total when batches fail or answers
    lack items. *)
Theorem progress_counts_records :
  forall api video_ids,
    let run := get_video_details api video_ids init in
    In (PbarOpen (len video_ids) (py "Processing videos")) (events run) /\
    exists records,
      returned run = Val records /\
      progress (events run) = List.length records.
Proof.
  intros api video_ids run. subst run. unfold returned, events.
  rewrite get_video_details_run. cbn [fst snd trace app videos_calls init].
  split; [right; left; reflexivity |].
  eexists. split; [reflexivity |].
  change (progress
            (batches_events api video_ids 0
               (range 0 (List.length video_ids) 50) ++ [PbarClose])
          = List.length
              (batches_records api video_ids 0
                 (range 0 (List.length video_ids) 50))).
  rewrite progress_app, batches_events_progress.
  change (progress [PbarClose]) with 0. lia.
Qed.

(** ** An item that cannot be assembled *)

Lemma items_records_stop api good bad rest :
  Forall (well_formed api) good ->
  ~ well_formed api bad ->
  items_records api (good ++ bad :: rest) = items_records api good.
Proof.
  intros G B. induction G as [| item good W _ IH]; simpl.
  - destruct (item_record api bad) eqn:E; [| reflexivity].
    exfalso. apply B. apply item_record_well_formed. congruence.
  - now rewrite IH.
Qed.

Lemma items_events_stop api good bad rest :
  Forall (well_formed api) good ->
  ~ well_formed api bad ->
  items_events api (good ++ bad :: rest)
  = items_events api good ++ item_events api bad.
Proof.
  intros G B. induction G as [| item good W _ IH]; simpl.
  - destruct (item_record api bad) eqn:E; [| now rewrite app_nil_r].
    exfalso. apply B. apply item_record_well_formed. congruence.
  - apply item_record_well_formed in W.
    destruct (item_record api item); [| congruence].
    now rewrite IH, app_assoc.
Qed.

(** X10.  When an item of the answer to a batch cannot be assembled (a key
    the record needs is missing, or its duration does not parse), the batch
    is not dropped as a whole: the records of the items before it in the
    answer are kept, the items after it are not looked at (no transcript is
    asked for them), no delay follows the batch, and the other batches are
    processed as usual. *)
Theorem broken_item_keeps_earlier_records :
  forall api video_ids earlier i later response good bad rest,
    range 0 (List.length video_ids) 50 = earlier ++ i :: later ->
    videos_list_execute api (List.length earlier) (batch_request video_ids i)
    = inr response ->
    videos_items response = Some (good ++ bad :: rest) ->
    Forall (well_formed api) good ->
    ~ well_formed api bad ->
    returned (get_video_details api video_ids init)
    = Val (batches_records api video_ids 0 earlier
           ++ items_records api good
           ++ batches_records api video_ids (S (List.length earlier)) later) /\
    List.length (items_records api good) = List.length good /\
    exists e,
      batch_events api video_ids (List.length earlier) i
      = VideosCall (batch_request video_ids i)
        :: items_events api good ++ item_events api bad
        ++ [Printed (MsgBatchError e)].
Proof.
  intros api video_ids earlier i later response good bad rest R A V G B.
  split; [| split].
  - unfold returned. rewrite get_video_details_run, R. cbn [fst].
    rewrite batches_records_app. cbn [batches_records videos_calls init].
    rewrite Nat.add_0_l. do 2 f_equal. f_equal.
    unfold batch_records, response_records. rewrite A, V.
    now apply items_records_stop.
  - now apply items_records_length.
  - destruct (batch_events_shape api video_ids (List.length earlier) i)
      as [evs [E H]].
    destruct (batch_events_items api video_ids (List.length earlier) i)
      as [last [_ E']].
    rewrite A in H, E'. rewrite V in E'.
    rewrite (items_events_stop api good bad rest G B) in E'.
    destruct H as [mid [_ [[C _] | [_ [e H]]]]].
    + exfalso. destruct C as [response' [A' F]].
      rewrite A in A'. injection A' as <-.
      specialize (F _ V). apply Forall_app in F. destruct F as [_ F].
      inversion F. contradiction.
    + exists e. rewrite E'. rewrite E' in E. injection E as E2.
      rewrite H in E2. apply app_inj_tail in E2. destruct E2 as [_ ->].
      now rewrite <- app_assoc.
Qed.

Lemma broken_item_keeps_earlier_records_witness :
  record_count
    (returned (get_video_details
                 (Faults.with_details Faults.broken_details Scenario.one_page)
                 [py "a"; py "b"; py "c"] init))
  = Some 1.
Proof.
  pose proof (broken_item_keeps_earlier_records
                (Faults.with_details Faults.broken_details Scenario.one_page)
                [py "a"; py "b"; py "c"] [] 0 []
                {| videos_items :=
                     Some [Scenario.complete_item (py "a");
                           Faults.broken_item (py "b");
                           Scenario.complete_item (py "c")] |}
                [Scenario.complete_item (py "a")]
                (Faults.broken_item (py "b"))
                [Scenario.complete_item (py "c")]
                eq_refl eq_refl eq_refl) as H.
  destruct H as [H _].
  - constructor; [| constructor]. eexists. reflexivity.
  - intros [r W]. discriminate W.
  - rewrite H. reflexivity.
Defined.

(** ** What a record says of the captions *)

(** X11.  Every record [get_video_details] returns is the record of a video
    [v]: its URL is the watch address of [v], and its two caption fields are
    what [get_video_captions] returns for [v], the text being kept only when
    captions are available.  So a record with [Captions Available] false has
    an empty [Caption Text]. *)
Theorem records_carry_captions :
  forall api video_ids records,
    returned (get_video_details api video_ids init) = Val records ->
    Forall (fun r =>
              (exists video_id,
                  Video_URL r
                  = py "https://www.youtube.com/watch?v=" ++ video_id /\
                  match returned (get_video_captions api video_id init) with
                  | Val (has_captions, caption_text) =>
                      Captions_Available r = has_captions /\
                      Caption_Text r
                      = (if has_captions then caption_text else py "")
                  | _ => False
                  end) /\
              (Captions_Available r = false -> Caption_Text r = py ""))
      records.
Proof.
  intros api video_ids records R.
  unfold returned in R. rewrite get_video_details_run in R.
  injection R as <-.
  pose proof (batches_records_carry api video_ids 0
                (range 0 (List.length video_ids) 50)) as C.
  cbn [videos_calls init].
  eapply Forall_impl; [| exact C].
  intros r [v [U [A T]]]. split.
  - exists v. split; [exact U |].
    unfold captions_of in A, T.
    destruct (get_video_captions_returns api v init) as [[b t] E].
    unfold returned in *. rewrite E in A, T |- *. auto.
  - intro F. rewrite F in A. rewrite <- A in T. exact T.
Qed.

Lemma records_carry_captions_witness :
  Forall (fun r => Captions_Available r = false -> Caption_Text r = py "")
    (batches_records Scenario.one_page [py "a"] 0 (range 0 1 50)).
Proof.
  eapply Forall_impl;
    [| exact (records_carry_captions Scenario.one_page [py "a"] _
                (f_equal fst
                   (get_video_details_run Scenario.one_page [py "a"] init)))].
  intros r [_ H]. exact H.
Defined.

(** ** A transcript that is obtained *)

Lemma texts_of_some caption_data ts :
  texts_of caption_data = Some ts ->
  map text caption_data = map Some ts.
Proof.
  revert ts. induction caption_data as [| entry rest IH]; intros ts; simpl.
  - intro H. injection H as <-. reflexivity.
  - destruct (text entry) as [t |]; [| discriminate].
    destruct (texts_of rest) as [ts' |]; [| discriminate].
    intro H. injection H as <-. simpl. now rewrite (IH ts').
Qed.

(** X5.  [get_video_captions] returns [True] exactly when no step fails,
    and then with the texts of the caption segments joined by single
    spaces.  The transcript fetched is the English one when there is one,
    whatever the fallback would give, and the manually created one
    otherwise.  A transcript without segments gives [(True, "")]. *)
Theorem get_video_captions_success :
  forall api video_id st caption_text,
    returned (get_video_captions api video_id st) = Val (true, caption_text)
    <->
    exists transcript_list transcript caption_data texts,
      list_transcripts api video_id = inr transcript_list /\
      resolves transcript_list transcript /\
      fetch transcript = inr caption_data /\
      map text caption_data = map Some texts /\
      caption_text = join (py " ") texts.
Proof.
  intros api video_id st caption_text. split.
  - unfold returned. rewrite get_video_captions_run. cbn [fst].
    unfold captions_of, returned, get_video_captions, try_except, bind,
      emit, lift, raise, ret, any_Exception; simpl.
    destruct (list_transcripts api video_id) as [e | tl] eqn:L; simpl;
      [discriminate |].
    destruct (find_transcript tl [py "en"]) as [e1 | t] eqn:F1; simpl.
    + destruct (find_manually_created_transcript tl None) as [e2 | t] eqn:F2;
        simpl; [discriminate |].
      destruct (fetch t) as [e | cd] eqn:F; simpl; [discriminate |].
      rewrite entry_texts_run.
      destruct (texts_of cd) as [ts |] eqn:T; simpl; [| discriminate].
      intro H. injection H as <-. exists tl, t, cd, ts.
      repeat split; auto.
      * eapply resolves_fallback; eauto.
      * now apply texts_of_some.
    + destruct (fetch t) as [e | cd] eqn:F; simpl; [discriminate |].
      rewrite entry_texts_run.
      destruct (texts_of cd) as [ts |] eqn:T; simpl; [| discriminate].
      intro H. injection H as <-. exists tl, t, cd, ts.
      repeat split; auto.
      * now apply resolves_english.
      * now apply texts_of_some.
  - intros [tl [t [cd [ts [L [R [F [T ->]]]]]]]].
    assert (Tx : texts_of cd = Some ts).
    { clear F. revert ts T. induction cd as [| entry rest IH];
        intros [| x ts] T; simpl in *; try discriminate; [reflexivity |].
      injection T as T1 T2. rewrite T1, (IH ts T2). reflexivity. }
    unfold returned, get_video_captions, try_except, bind, emit, lift,
      raise, ret, any_Exception; simpl.
    rewrite L; simpl.
    destruct R as [R | e R1 R2].
    + rewrite R; simpl. rewrite F; simpl.
      rewrite entry_texts_run, Tx. reflexivity.
    + rewrite R1; simpl. rewrite R2; simpl. rewrite F; simpl.
      rewrite entry_texts_run, Tx. reflexivity.
Qed.

Lemma get_video_captions_success_witness :
  returned (get_video_captions Scenario.studio (py "a") init)
  = Val (true, py "hello world").
Proof.
  apply (proj2 (get_video_captions_success Scenario.studio (py "a") init
                  (py "hello world"))).
  exists Scenario.manual_only, Scenario.spoken,
    [ {| text := Some (py "hello") |}; {| text := Some (py "world") |} ],
    [py "hello"; py "world"].
  repeat split.
  eapply resolves_fallback; reflexivity.
Defined.

(** ** A search call that fails *)

(** One turn of the loop when the search call raises. *)
Lemma search_turn_raises api genre max_results token st e :
  search_list_execute api (search_calls st)
    (page_request genre (Z.min 50 (max_results - len (video_ids st))) token)
  = inl e ->
  search_turn api genre max_results token st =
  match e with
  | HttpError status content =>
      (Val Break,
       logged
         (called st
            (page_request genre
               (Z.min 50 (max_results - len (video_ids st))) token))
         [Printed (MsgSearchHttpError status content)])
  | _ =>
      (Exc e,
       called st
         (page_request genre
            (Z.min 50 (max_results - len (video_ids st))) token))
  end.
Proof.
  intros A. unfold search_turn, try_except.
  rewrite bind_run. unfold get_video_ids at 1.
  rewrite bind_run. unfold search_execute.
  change {| q := genre; part := py "id"; type_ := py "video";
            maxResults := Z.min 50 (max_results - len (video_ids st));
            pageToken := token; order := py "viewCount";
            regionCode := None; relevanceLanguage := py "" |}
    with (page_request genre
            (Z.min 50 (max_results - len (video_ids st))) token).
  rewrite A. destruct e; reflexivity.
Qed.

(** X1.  [search_videos_by_genre] lets no exception out: whatever the search
    collaborator does, a run that ends returns a list. *)
Theorem search_never_raises :
  forall api fuel genre max_results st e,
    returned (search_videos_by_genre api fuel genre max_results st) <> Exc e.
Proof.
  intros api fuel genre max_results st e. unfold returned.
  rewrite search_videos_by_genre_run.
  destruct (search_while api fuel genre max_results None _)
    as [[[] | e' |] st']; discriminate.
Qed.

(** X2.  Let the first page be answered, with fewer identifiers than asked
    for in all and a cursor, and let the call for the second page raise.
    If the exception is an [HttpError], the search stops and returns the
    identifiers of the first page.  If it is any other exception, the
    identifiers collected are discarded and the empty list is returned.  Two
    search calls are made in both cases. *)
Theorem second_page_failure :
  forall api fuel genre max_results response items ids e,
    search_list_execute api 0
      (page_request genre (Z.min 50 max_results) None) = inr response ->
    search_items response = Some items ->
    page_ids items = Some ids ->
    (len ids < max_results)%Z ->
    truthy (nextPageToken response) = true ->
    search_list_execute api 1
      (page_request genre (Z.min 50 (max_results - len ids))
         (nextPageToken response)) = inl e ->
    let run :=
      search_videos_by_genre api (S (S fuel)) genre max_results init in
    returned run = Val (if is_HttpError e then ids else []) /\
    searches (events run) = 2.
Proof.
  intros api fuel genre max_results response items ids e A I P Hlt T A2 run.
  subst run. unfold returned, events. rewrite search_videos_by_genre_run.
  set (st1 := logged (snd (set_video_ids [] init)) _).
  assert (Hpos : (0 < max_results)%Z) by (unfold len in Hlt; lia).
  assert (L : (len (video_ids st1) <? max_results)%Z = true)
    by (apply Z.ltb_lt; exact Hpos).
  assert (A' : search_list_execute api (search_calls st1)
                 (page_request genre
                    (Z.min 50 (max_results - len (video_ids st1))) None)
               = inr response).
  { change (len (video_ids st1)) with 0%Z. now rewrite Z.sub_0_r. }
  rewrite search_while_turn by exact L.
  rewrite (search_turn_page _ _ _ _ _ _ _ _ A' I P). cbv zeta.
  change (video_ids st1 ++ ids) with ids.
  replace (len ids >=? max_results)%Z with false
    by (symmetry; rewrite Z.geb_leb; apply Z.leb_gt; exact Hlt).
  rewrite T. cbn [negb].
  set (st2 := collect (called st1 _) ids).
  assert (L2 : (len (video_ids st2) <? max_results)%Z = true)
    by (apply Z.ltb_lt; exact Hlt).
  assert (A2' : search_list_execute api (search_calls st2)
                  (page_request genre
                     (Z.min 50 (max_results - len (video_ids st2)))
                     (nextPageToken response))
                = inl e) by exact A2.
  rewrite search_while_turn by exact L2.
  rewrite (search_turn_raises _ _ _ _ _ _ A2').
  destruct e; cbn; rewrite !filter_app, no_search_in_progress; auto.
Qed.

Lemma second_page_failure_witness :
  (len [py "a"; py "b"] < 500)%Z /\
  returned (search_videos_by_genre
              (Faults.with_search (Faults.search_then Faults.server_error)
                 Scenario.studio)
              2 (py "chess") 500 init)
  = Val [py "a"; py "b"] /\
  returned (search_videos_by_genre
              (Faults.with_search (Faults.search_then Faults.timed_out)
                 Scenario.studio)
              2 (py "chess") 500 init)
  = Val [].
Proof.
  split; [reflexivity |]. split.
  - exact (proj1 (second_page_failure
                    (Faults.with_search
                       (Faults.search_then Faults.server_error)
                       Scenario.studio)
                    0 (py "chess") 500 Faults.first_page
                    [item_of (py "a"); item_of (py "b")] [py "a"; py "b"]
                    Faults.server_error
                    eq_refl eq_refl eq_refl eq_refl eq_refl eq_refl)).
  - exact (proj1 (second_page_failure
                    (Faults.with_search
                       (Faults.search_then Faults.timed_out)
                       Scenario.studio)
                    0 (py "chess") 500 Faults.first_page
                    [item_of (py "a"); item_of (py "b")] [py "a"; py "b"]
                    Faults.timed_out
                    eq_refl eq_refl eq_refl eq_refl eq_refl eq_refl)).
Defined.

(** ** The requests of the paginator *)

Lemma emits_only_at {A} P (m : M A) st : emits_only P m -> emits_at P m st.
Proof. intro H. apply H. Qed.

Lemma emits_at_bind {A B} P (m : M A) (k : A -> M B) st :
  emits_at P m st ->
  (forall a st', m st = (Val a, st') -> emits_at P (k a) st') ->
  emits_at P (bind m k) st.
Proof.
  intros [e1 [E1 F1]] Hk. unfold emits_at, bind.
  destruct (m st) as [[a | e |] st1] eqn:Em; simpl in *; eauto.
  destruct (Hk a st1 eq_refl) as [e2 [E2 F2]].
  exists (e1 ++ e2). rewrite E2, E1, app_assoc. split; [reflexivity |].
  apply Forall_app. auto.
Qed.

Lemma emits_at_try_except {A} P (body : M A) catches handler st :
  emits_at P body st ->
  (forall e, emits_only P (handler e)) ->
  emits_at P (try_except body catches handler) st.
Proof.
  intros [e1 [E1 F1]] Hh. unfold emits_at, try_except.
  destruct (body st) as [[a | e |] st1]; simpl in *; eauto.
  destruct (catches e); simpl; eauto.
  destruct (Hh e st1) as [e2 [E2 F2]].
  exists (e1 ++ e2). rewrite E2, E1, app_assoc. split; [reflexivity |].
  apply Forall_app. auto.
Qed.

Lemma search_turn_requests api genre max_results token st :
  (len (video_ids st) < max_results)%Z ->
  emits_at (paginator_event genre max_results)
    (search_turn api genre max_results token) st.
Proof.
  intro L. unfold search_turn.
  apply emits_at_try_except; [| intro e; repeat emits_step].
  apply emits_at_bind; [apply emits_only_at, emits_get_video_ids |].
  intros ids st' E. unfold get_video_ids in E. injection E as <- <-.
  apply emits_at_bind.
  - apply emits_only_at, emits_search_execute.
    unfold paginator_event, paginator_request; simpl.
    unfold len in *. repeat split; lia.
  - intros response st' _. apply emits_only_at.
    unfold search_item_body. repeat emits_step.
Qed.

Lemma search_while_requests api fuel genre max_results token st :
  emits_at (paginator_event genre max_results)
    (search_while api fuel genre max_results token) st.
Proof.
  revert token st. induction fuel as [| fuel IH]; intros token st; simpl.
  - apply emits_only_at. repeat emits_step.
  - apply emits_at_bind; [apply emits_only_at, emits_get_video_ids |].
    intros ids st' E. unfold get_video_ids in E. injection E as <- <-.
    destruct (len (video_ids st) <? max_results)%Z eqn:L;
      [| apply emits_only_at, emits_ret].
    apply Z.ltb_lt in L.
    apply emits_at_bind; [now apply search_turn_requests |].
    intros [| t] st' _; [apply emits_only_at, emits_ret | apply IH].
Qed.

Lemma search_requests_app l1 l2 :
  search_requests (l1 ++ l2) = search_requests l1 ++ search_requests l2.
Proof. unfold search_requests. apply flat_map_app. Qed.

Lemma paginator_events_requests genre max_results evs :
  Forall (paginator_event genre max_results) evs ->
  Forall (paginator_request genre max_results) (search_requests evs).
Proof.
  induction 1 as [| ev rest H _ IH]; simpl; [constructor |].
  destruct ev; simpl in *; auto.
Qed.

(** X3.  Every search call of [search_videos_by_genre] asks for the topic,
    for videos only, by view count, the identifiers only, without region or
    language, and for a page of between 1 and 50 results that never exceeds
    the target [max_results]. *)
Theorem search_requests_well_formed :
  forall api fuel genre max_results,
    Forall (fun r =>
              q r = genre /\ part r = py "id" /\ type_ r = py "video" /\
              order r = py "viewCount" /\ regionCode r = None /\
              relevanceLanguage r = py "" /\
              (1 <= maxResults r <= 50)%Z /\
              (maxResults r <= max_results)%Z)
      (search_requests
         (events (search_videos_by_genre api fuel genre max_results init))).
Proof.
  intros api fuel genre max_results.
  change (Forall (paginator_request genre max_results)
            (search_requests
               (events (search_videos_by_genre api fuel genre max_results
                          init)))).
  assert (E : emits_at (paginator_event genre max_results)
                (search_videos_by_genre api fuel genre max_results) init).
  { unfold search_videos_by_genre.
    apply emits_at_bind; [apply emits_only_at, emits_set_video_ids |].
    intros _ st' _. apply emits_at_try_except; [| intro e; repeat emits_step].
    apply emits_at_bind; [apply emits_only_at; repeat emits_step |].
    intros _ st1 _.
    apply emits_at_bind; [apply emits_only_at; repeat emits_step |].
    intros _ st2 _.
    apply emits_at_bind; [apply emits_only_at; repeat emits_step |].
    intros _ st3 _.
    apply emits_at_bind; [apply search_while_requests |].
    intros _ st4 _. apply emits_only_at. repeat emits_step. }
  destruct E as [evs [T F]]. unfold events. rewrite T. simpl.
  now apply paginator_events_requests.
Qed.

(** ** No more than the target *)

Lemma ids_prefix_length items :
  List.length (ids_prefix items) <= List.length items.
Proof.
  induction items as [| item rest IH]; simpl; [lia |].
  destruct (videoId_of item); simpl; lia.
Qed.

Lemma page_ids_length items ids :
  page_ids items = Some ids -> List.length ids = List.length items.
Proof.
  revert ids. induction items as [| item rest IH]; intros ids; simpl.
  - intro H. injection H as <-. reflexivity.
  - destruct (videoId_of item); [| discriminate].
    destruct (page_ids rest) as [vs |]; [| discriminate].
    intro H. injection H as <-. simpl. now rewrite (IH vs).
Qed.

Section PageSize.

Variable api : collaborators.
Variable genre : str.
Variable max_results : Z.

(** The search collaborator never answers a page with more items than were
    asked for. *)
Hypothesis honours_page_size :
  forall k r response items,
    search_list_execute api k r = inr response ->
    search_items response = Some items ->
    (1 <= maxResults r)%Z ->
    (len items <= maxResults r)%Z.

Lemma search_turn_within_target token st :
  (len (video_ids st) < max_results)%Z ->
  (len (video_ids (snd (search_turn api genre max_results token st)))
   <= max_results)%Z.
Proof.
  intro L.
  set (req := page_request genre
                (Z.min 50 (max_results - len (video_ids st))) token).
  assert (Hreq : (1 <= maxResults req)%Z)
    by (subst req; simpl; unfold len in *; lia).
  destruct (search_list_execute api (search_calls st) req)
    as [e | response] eqn:A.
  - rewrite (search_turn_raises _ _ _ _ _ _ A). destruct e; simpl; lia.
  - destruct (search_items response) as [items |] eqn:I.
    + pose proof (honours_page_size _ _ _ _ A I Hreq) as B. simpl in B.
      destruct (page_ids items) as [ids |] eqn:P.
      * rewrite (search_turn_page _ _ _ _ _ _ _ _ A I P). cbv zeta.
        apply page_ids_length in P.
        destruct (len (video_ids st ++ ids) >=? max_results)%Z;
          [| destruct (negb (truthy (nextPageToken response)))];
          cbn [snd video_ids collect called logged];
          unfold len in *; rewrite length_app; lia.
      * destruct (search_turn_bad_item _ _ _ _ _ _ _ A I P) as [e ->].
        cbn [snd video_ids collect called].
        pose proof (ids_prefix_length items).
        unfold len in *; rewrite length_app; lia.
    + rewrite (search_turn_no_items _ _ _ _ _ _ A I). simpl. lia.
Qed.

Lemma search_while_within_target fuel token st :
  (len (video_ids st) <= Z.max 0 max_results)%Z ->
  (len (video_ids (snd (search_while api fuel genre max_results token st)))
   <= Z.max 0 max_results)%Z.
Proof.
  revert token st. induction fuel as [| fuel IH]; intros token st B.
  - simpl. unfold bind, get_video_ids; simpl.
    destruct (len (video_ids st) <? max_results)%Z; exact B.
  - destruct (len (video_ids st) <? max_results)%Z eqn:L.
    + rewrite search_while_turn by exact L. apply Z.ltb_lt in L.
      pose proof (search_turn_within_target token st L) as T.
      destruct (search_turn api genre max_results token st)
        as [[[| t] | e |] st']; cbn [snd] in *; try lia.
      apply IH. lia.
    + rewrite search_while_done by exact L. exact B.
Qed.

(** X4.  When the search collaborator never answers a page with more items
    than were asked for, [search_videos_by_genre] never returns more than
    [max_results] identifiers.  (The paginator itself does not truncate a
    page: every item of an answer is appended.) *)
Theorem search_at_most_max_results :
  forall fuel ids,
    returned (search_videos_by_genre api fuel genre max_results init)
    = Val ids ->
    (len ids <= Z.max 0 max_results)%Z.
Proof.
  intros fuel ids. unfold returned. rewrite search_videos_by_genre_run.
  set (st1 := logged (snd (set_video_ids [] init)) _).
  assert (B : (len (video_ids st1) <= Z.max 0 max_results)%Z)
    by (change (len (video_ids st1)) with 0%Z; lia).
  pose proof (search_while_within_target fuel None st1 B) as W.
  destruct (search_while api fuel genre max_results None st1)
    as [[[] | e |] st']; cbn [fst snd] in *; intro H;
    [| | discriminate]; injection H as <-.
  - exact W.
  - unfold len; simpl. lia.
Qed.

End PageSize.

Lemma paging_honours_size :
  forall k r response items,
    search_list_execute Scenario.studio k r = inr response ->
    search_items response = Some items ->
    (1 <= maxResults r)%Z ->
    (len items <= maxResults r)%Z.
Proof.
  intros k r response items A I H.
  change (Scenario.paging_search Scenario.catalogue k r = inr response) in A.
  unfold Scenario.paging_search in A. injection A as <-.
  simpl in I. injection I as <-.
  unfold len. rewrite length_map, length_firstn. lia.
Qed.

Lemma search_at_most_max_results_witness :
  (len Scenario.catalogue <= Z.max 0 500)%Z.
Proof.
  exact (search_at_most_max_results Scenario.studio (py "chess") 500
           paging_honours_size 4 Scenario.catalogue (proj1 chess_pages)).
Defined.

(** ** collect_data *)

Lemma emit_run ev st : emit ev st = (Val tt, logged st [ev]).
Proof. reflexivity. Qed.

Lemma bind_emit {A} ev (k : unit -> M A) st :
  bind (emit ev) k st = k tt (logged st [ev]).
Proof. reflexivity. Qed.

Lemma logged_logged st l1 l2 : logged (logged st l1) l2 = logged st (l1 ++ l2).
Proof. unfold logged; simpl. now rewrite <- app_assoc. Qed.

(** What [collect_data] does, given what the search and the enrichment
    do. *)
Lemma collect_data_run api unicode_isalnum fuel genre st :
  collect_data api unicode_isalnum fuel genre st =
  let st1 :=
    logged st [Clock; Printed MsgStarting; Makedirs (py "output")] in
  let file := output_file api unicode_isalnum (py "output") genre in
  match makedirs api (py "output") with
  | inl e => (Val tt, logged st1 [Printed (MsgCollectError e)])
  | inr _ =>
      match search_videos_by_genre api fuel genre 500 st1 with
      | (OutOfFuel, st2) => (OutOfFuel, st2)
      | (Exc e, st2) => (Val tt, logged st2 [Printed (MsgCollectError e)])
      | (Val [], st2) => (Val tt, logged st2 [Printed MsgNoVideosFound])
      | (Val (v :: ids), st2) =>
          match get_video_details api (v :: ids) st2 with
          | (OutOfFuel, st3) => (OutOfFuel, st3)
          | (Exc e, st3) => (Val tt, logged st3 [Printed (MsgCollectError e)])
          | (Val [], st3) => (Val tt, logged st3 [Printed MsgNoDetails])
          | (Val (r :: records), st3) =>
              match to_csv api file (r :: records) with
              | inl e =>
                  (Val tt,
                   logged st3 [ToCsv file (r :: records);
                               Printed (MsgCollectError e)])
              | inr _ =>
                  (Val tt,
                   logged st3
                     [ToCsv file (r :: records); Clock; Printed MsgCompleted;
                      Printed (MsgTotalProcessed (len (r :: records)));
                      Printed MsgTimeTaken; Printed (MsgSavedTo file)])
              end
          end
      end
  end.
Proof.
  cbv zeta. unfold collect_data, try_except, print.
  rewrite !bind_emit, !logged_logged. cbn [app].
  destruct (makedirs api (py "output")) as [e | []].
  { unfold lift, bind, raise, any_Exception. rewrite emit_run. reflexivity. }
  unfold lift at 1. rewrite bind_run. unfold ret at 1. rewrite bind_run.
  destruct (search_videos_by_genre api fuel genre 500 _)
    as [[[| v ids] | e |] st2]; try reflexivity.
  rewrite bind_run.
  destruct (get_video_details api (v :: ids) st2)
    as [[[| r records] | e |] st3]; try reflexivity.
  rewrite bind_emit.
  destruct (to_csv api _ (r :: records)) as [e | []].
  - unfold lift, bind, raise, any_Exception.
    rewrite emit_run, logged_logged. reflexivity.
  - unfold lift at 1. rewrite bind_run. unfold ret at 1.
    rewrite !bind_emit, emit_run, !logged_logged. reflexivity.
Qed.

(** X12.  [collect_data] lets no exception out: whatever the collaborators
    do, a run that ends returns normally. *)
Theorem collect_data_never_raises :
  forall api unicode_isalnum fuel genre st e,
    returned (collect_data api unicode_isalnum fuel genre st) <> Exc e.
Proof.
  intros api u fuel genre st e. unfold returned.
  rewrite collect_data_run. cbv zeta.
  destruct (makedirs api (py "output")); [discriminate |].
  destruct (search_videos_by_genre api fuel genre 500 _)
    as [[[| v ids] | e' |] st2]; try discriminate.
  destruct (get_video_details api (v :: ids) st2)
    as [[[| r records] | e' |] st3]; try discriminate.
  destruct (to_csv api _ (r :: records)); discriminate.
Qed.

(** X13.  When the output directory cannot be created, [collect_data]
    reports the error and stops there: no search call and no details call is
    made, and no file is written. *)
Theorem collect_data_without_directory :
  forall api unicode_isalnum fuel genre st e,
    makedirs api (py "output") = inl e ->
    let run := collect_data api unicode_isalnum fuel genre st in
    returned run = Val tt /\
    events run
    = trace st ++ [Clock; Printed MsgStarting; Makedirs (py "output");
                   Printed (MsgCollectError e)].
Proof.
  intros api u fuel genre st e Mk run. subst run.
  unfold returned, events. rewrite collect_data_run. cbv zeta.
  rewrite Mk. unfold logged; simpl. now rewrite <- !app_assoc.
Qed.

Lemma collect_data_without_directory_witness :
  makedirs (Faults.with_makedirs (fun _ => inl Faults.read_only)
              Scenario.studio) (py "output") = inl Faults.read_only /\
  returned (collect_data
              (Faults.with_makedirs (fun _ => inl Faults.read_only)
                 Scenario.studio)
              Scenario.ascii_only 4 (py "chess") init) = Val tt.
Proof.
  split; [reflexivity |].
  exact (proj1 (collect_data_without_directory
                  (Faults.with_makedirs (fun _ => inl Faults.read_only)
                     Scenario.studio)
                  Scenario.ascii_only 4 (py "chess") init Faults.read_only
                  eq_refl)).
Defined.

Lemma no_file_written evs : Forall not_a_file evs -> files_written evs = [].
Proof.
  induction 1 as [| ev rest H _ IH]; simpl; [reflexivity |].
  destruct ev; simpl in *; try contradiction; exact IH.
Qed.

Lemma files_written_app l1 l2 :
  files_written (l1 ++ l2) = files_written l1 ++ files_written l2.
Proof. unfold files_written. apply flat_map_app. Qed.

(** X14.  When the first search call raises, whatever the exception,
    [collect_data] finds no videos: it ends with "No videos found!", makes
    no details call and writes no file. *)
Theorem collect_data_without_videos :
  forall api unicode_isalnum fuel genre e,
    makedirs api (py "output") = inr tt ->
    search_list_execute api 0 (page_request genre 50 None) = inl e ->
    let run := collect_data api unicode_isalnum (S fuel) genre init in
    returned run = Val tt /\
    (exists before, events run = before ++ [Printed MsgNoVideosFound]) /\
    searches (events run) = 1 /\
    details_calls (events run) = 0 /\
    files_written (events run) = [].
Proof.
  intros api u fuel genre e Mk A run. subst run.
  unfold returned, events. rewrite collect_data_run. cbv zeta. rewrite Mk.
  rewrite search_videos_by_genre_run.
  set (st1 := logged (snd (set_video_ids [] _)) _).
  assert (L : (len (video_ids st1) <? 500)%Z = true) by reflexivity.
  assert (A' : search_list_execute api (search_calls st1)
                 (page_request genre
                    (Z.min 50 (500 - len (video_ids st1))) None)
               = inl e) by exact A.
  rewrite search_while_turn by exact L.
  rewrite (search_turn_raises _ _ _ _ _ _ A').
  destruct e;
    (split; [reflexivity |]);
    (split; [eexists; unfold logged at 1; cbn [snd trace]; reflexivity |]);
    cbn; repeat split; reflexivity.
Qed.

Lemma collect_data_without_videos_witness :
  makedirs (Faults.with_search (fun _ _ => inl Faults.timed_out)
              Scenario.studio) (py "output") = inr tt /\
  files_written
    (events (collect_data
               (Faults.with_search (fun _ _ => inl Faults.timed_out)
                  Scenario.studio)
               Scenario.ascii_only 1 (py "chess") init)) = [].
Proof.
  split; [reflexivity |].
  exact (proj2 (proj2 (proj2 (proj2
           (collect_data_without_videos
              (Faults.with_search (fun _ _ => inl Faults.timed_out)
                 Scenario.studio)
              Scenario.ascii_only 0 (py "chess") Faults.timed_out
              eq_refl eq_refl))))).
Defined.

Lemma not_a_file_not_in evs path rows :
  Forall not_a_file evs -> ~ In (ToCsv path rows) evs.
Proof.
  intros F I. rewrite Forall_forall in F. exact (F _ I).
Qed.

(** X15.  [collect_data] writes a file only for records it has: when the
    trace holds a write, it is the only one, its rows are not empty, and
    they are the records [get_video_details] returned for the identifiers
    [search_videos_by_genre] returned for the topic with the target 500. *)
Theorem collect_data_writes_the_records :
  forall api unicode_isalnum fuel genre path rows,
    In (ToCsv path rows)
       (events (collect_data api unicode_isalnum fuel genre init)) ->
    rows <> [] /\
    files_written (events (collect_data api unicode_isalnum fuel genre init))
    = [(path, List.length rows)] /\
    exists ids st,
      ids <> [] /\
      returned (search_videos_by_genre api fuel genre 500
                  (logged init
                     [Clock; Printed MsgStarting; Makedirs (py "output")]))
      = Val ids /\
      returned (get_video_details api ids st) = Val rows.
Proof.
  intros api u fuel genre path rows. unfold events, returned.
  rewrite collect_data_run. cbv zeta.
  set (st1 := logged init [Clock; Printed MsgStarting; Makedirs (py "output")]).
  assert (N1 : Forall not_a_file (trace st1)) by (repeat constructor).
  destruct (makedirs api (py "output")) as [e | []].
  { cbn [snd trace logged]. intro I. exfalso.
    apply in_app_or in I. destruct I as [I | [I | []]]; [| discriminate].
    exact (not_a_file_not_in _ _ _ N1 I). }
  destruct (search_emits_no_file api fuel genre 500 st1) as [evs2 [T2 F2]].
  destruct (search_videos_by_genre api fuel genre 500 st1)
    as [o2 st2] eqn:S2. cbn [snd] in T2.
  assert (N2 : Forall not_a_file (trace st2))
    by (rewrite T2; apply Forall_app; auto).
  destruct o2 as [[| v ids] | e |];
    try (cbn [snd trace logged]; intro I; exfalso;
         solve [ exact (not_a_file_not_in _ _ _ N2 I)
               | apply in_app_or in I; destruct I as [I | [I | []]];
                 [exact (not_a_file_not_in _ _ _ N2 I) | discriminate] ]).
  destruct (details_emit_no_file api (v :: ids) st2) as [evs3 [T3 F3]].
  destruct (get_video_details api (v :: ids) st2) as [o3 st3] eqn:S3.
  cbn [snd] in T3.
  assert (N3 : Forall not_a_file (trace st3))
    by (rewrite T3; apply Forall_app; auto).
  destruct o3 as [[| r records] | e |];
    try (cbn [snd trace logged]; intro I; exfalso;
         solve [ exact (not_a_file_not_in _ _ _ N3 I)
               | apply in_app_or in I; destruct I as [I | [I | []]];
                 [exact (not_a_file_not_in _ _ _ N3 I) | discriminate] ]).
  assert (W : forall tail,
             Forall not_a_file tail ->
             In (ToCsv path rows)
                (trace st3
                 ++ ToCsv (output_file api u (py "output") genre)
                      (r :: records) :: tail) ->
             rows <> [] /\
             files_written
               (trace st3
                ++ ToCsv (output_file api u (py "output") genre)
                     (r :: records) :: tail)
             = [(path, List.length rows)] /\
             exists ids0 st,
               ids0 <> [] /\ Val (v :: ids) = Val ids0 /\
               fst (get_video_details api ids0 st) = Val rows).
  { intros tail Ft I. apply in_app_or in I.
    destruct I as [I | [I | I]];
      [exfalso; exact (not_a_file_not_in _ _ _ N3 I) |
      | exfalso; exact (not_a_file_not_in _ _ _ Ft I)].
    injection I as <- <-. split; [discriminate |]. split.
    - rewrite files_written_app, (no_file_written _ N3). simpl.
      now rewrite (no_file_written _ Ft).
    - exists (v :: ids), st2. split; [discriminate |].
      split; [reflexivity |]. now rewrite S3. }
  destruct (to_csv api _ (r :: records)) as [e | []];
    cbn [snd trace logged fst]; apply W; repeat constructor.
Qed.

Lemma collect_data_writes_the_records_witness :
  In (ToCsv (output_file Scenario.one_page Scenario.ascii_only (py "output")
               (py "chess"))
        (batches_records Scenario.one_page [py "a"; py "b"] 0 [0]))
     (events (collect_data Scenario.one_page Scenario.ascii_only 1
                (py "chess") init)) /\
  batches_records Scenario.one_page [py "a"; py "b"] 0 [0] <> [].
Proof.
  assert (I : In (ToCsv (output_file Scenario.one_page Scenario.ascii_only
                           (py "output") (py "chess"))
                    (batches_records Scenario.one_page [py "a"; py "b"] 0 [0]))
                 (events (collect_data Scenario.one_page Scenario.ascii_only 1
                            (py "chess") init))).
  { vm_compute. do 40 (try (left; reflexivity); right). }
  split; [exact I |].
  exact (proj1 (collect_data_writes_the_records Scenario.one_page
                  Scenario.ascii_only 1 (py "chess") _ _ I)).
Defined.

(** ** The sanitized topic, again *)

Lemma lstrip_head s :
  match lstrip s with
  | [] => True
  | c :: _ => isspace c = false
  end.
Proof.
  induction s as [| c rest IH]; simpl; [exact I |].
  destruct (isspace c) eqn:E; [exact IH | exact E].
Qed.

Lemma lstrip_fixed s :
  match s with
  | [] => True
  | c :: _ => isspace c = false
  end ->
  lstrip s = s.
Proof. destruct s as [| c rest]; simpl; [reflexivity | now intros ->]. Qed.

Lemma lstrip_lstrip s : lstrip (lstrip s) = lstrip s.
Proof. apply lstrip_fixed, lstrip_head. Qed.

Lemma strip_trimmed s : trimmed (strip s).
Proof.
  unfold trimmed, strip. rewrite rev_involutive. split.
  - apply lstrip_fixed.
    destruct (lstrip_split (rev (lstrip s))) as [p [E _]].
    apply (f_equal (@rev _)) in E.
    rewrite rev_involutive, rev_app_distr in E.
    destruct (rev (lstrip (rev (lstrip s)))) as [| c w] eqn:W; [exact I |].
    pose proof (lstrip_head s) as H. rewrite E in H. exact H.
  - apply lstrip_lstrip.
Qed.

Lemma strip_fixed s : trimmed s -> strip s = s.
Proof.
  intros [H1 H2]. unfold strip. rewrite H1, H2. apply rev_involutive.
Qed.

Lemma filter_fixed {A} (f : A -> bool) l :
  Forall (fun x => f x = true) l -> filter f l = l.
Proof.
  induction 1 as [| x rest H _ IH]; simpl; [reflexivity |].
  now rewrite H, IH.
Qed.

Lemma filter_none {A} (f : A -> bool) l :
  Forall (fun x => f x = false) l -> filter f l = [].
Proof.
  induction 1 as [| x rest H _ IH]; simpl; [reflexivity |].
  now rewrite H.
Qed.

Lemma safe_genre_kept unicode_isalnum genre :
  Forall (fun c => keeps unicode_isalnum c = true)
    (safe_genre unicode_isalnum genre).
Proof.
  destruct (strip_split (filter (keeps unicode_isalnum) genre))
    as [pre [post [E _]]].
  fold (safe_genre unicode_isalnum genre) in E.
  assert (F : Forall (fun c => keeps unicode_isalnum c = true)
                (filter (keeps unicode_isalnum) genre)).
  { apply Forall_forall. intros c I. now apply filter_In in I. }
  rewrite E in F. apply Forall_app in F. destruct F as [_ F].
  apply Forall_app in F. tauto.
Qed.

(** X16.  The sanitized topic neither starts nor ends with white space, and
    sanitizing it again changes nothing.  A topic made of kept characters
    only, without white space at its ends, is its own sanitized form; a
    topic without any kept character is sanitized to the empty string, so
    that the file is named [youtube__<stamp>.csv]. *)
Theorem safe_genre_fixpoint :
  forall api unicode_isalnum genre,
    trimmed (safe_genre unicode_isalnum genre) /\
    safe_genre unicode_isalnum (safe_genre unicode_isalnum genre)
    = safe_genre unicode_isalnum genre /\
    (Forall (fun c => keeps unicode_isalnum c = true) genre ->
     trimmed genre ->
     safe_genre unicode_isalnum genre = genre) /\
    (Forall (fun c => keeps unicode_isalnum c = false) genre ->
     safe_genre unicode_isalnum genre = py "" /\
     output_file api unicode_isalnum (py "output") genre
     = py "output" ++ os_sep api ++ py "youtube__" ++ now_stamp api
       ++ py ".csv").
Proof.
  intros api u genre.
  assert (T : trimmed (safe_genre u genre)) by apply strip_trimmed.
  split; [exact T |]. split; [| split].
  - unfold safe_genre at 1.
    rewrite (filter_fixed _ _ (safe_genre_kept u genre)).
    now apply strip_fixed.
  - intros K Tg. unfold safe_genre.
    rewrite (filter_fixed _ _ K). now apply strip_fixed.
  - intro K.
    assert (E : safe_genre u genre = py "")
      by (unfold safe_genre; rewrite (filter_none _ _ K); reflexivity).
    split; [exact E |].
    unfold output_file, path_join. rewrite E. reflexivity.
Qed.

Lemma safe_genre_fixpoint_witness :
  safe_genre Scenario.ascii_only (py "hip hop") = py "hip hop" /\
  safe_genre Scenario.ascii_only (py "?!") = py "".
Proof.
  split.
  - apply (proj1 (proj2 (proj2 (safe_genre_fixpoint Scenario.studio
                                  Scenario.ascii_only (py "hip hop"))))).
    + repeat constructor.
    + split; reflexivity.
  - apply (proj2 (proj2 (proj2 (safe_genre_fixpoint Scenario.studio
                                  Scenario.ascii_only (py "?!"))))).
    repeat constructor.
Defined.

(** X17.  When every details call fails, [collect_data] writes no file; if
    the search found identifiers, the run ends with "No video details could
    be retrieved!". *)
Theorem collect_data_without_details :
  forall api unicode_isalnum fuel genre,
    makedirs api (py "output") = inr tt ->
    (forall c r, exists e, videos_list_execute api c r = inl e) ->
    let run := collect_data api unicode_isalnum fuel genre init in
    files_written (events run) = [] /\
    forall ids,
      returned (search_videos_by_genre api fuel genre 500
                  (logged init
                     [Clock; Printed MsgStarting; Makedirs (py "output")]))
      = Val ids ->
      ids <> [] ->
      returned run = Val tt /\
      exists before, events run = before ++ [Printed MsgNoDetails].
Proof.
  intros api u fuel genre Mk F run. subst run. unfold events, returned.
  rewrite collect_data_run. cbv zeta. rewrite Mk.
  set (st1 := logged init [Clock; Printed MsgStarting; Makedirs (py "output")]).
  assert (N1 : files_written (trace st1) = []) by reflexivity.
  destruct (search_emits_no_file api fuel genre 500 st1) as [evs2 [T2 F2]].
  destruct (search_videos_by_genre api fuel genre 500 st1)
    as [o2 st2] eqn:S2. cbn [snd fst] in *.
  assert (N2 : files_written (trace st2) = [])
    by (rewrite T2, files_written_app, N1, (no_file_written _ F2);
        reflexivity).
  destruct o2 as [[| v ids] | e |]; cbn [snd fst trace logged].
  - split; [| intros ids H; injection H as <-; congruence].
    now rewrite files_written_app, N2.
  - rewrite get_video_details_run.
    rewrite batches_records_all_fail by (intros c i; apply F).
    cbn [snd fst trace logged].
    destruct (details_emit_no_file api (v :: ids) st2) as [evs3 [T3 F3]].
    rewrite get_video_details_run in T3. cbn [snd trace] in T3.
    split.
    + rewrite files_written_app, T3, files_written_app, N2,
        (no_file_written _ F3). reflexivity.
    + intros ids0 _ _. split; [reflexivity |]. eexists. reflexivity.
  - split; [| intros ids H; discriminate].
    now rewrite files_written_app, N2.
  - split; [exact N2 | intros ids H; discriminate].
Qed.

Lemma collect_data_without_details_witness :
  makedirs Scenario.out_of_quota (py "output") = inr tt /\
  files_written
    (events (collect_data Scenario.out_of_quota Scenario.ascii_only 1
               (py "chess") init)) = [].
Proof.
  split; [reflexivity |].
  apply (collect_data_without_details Scenario.out_of_quota
           Scenario.ascii_only 1 (py "chess") eq_refl).
  intros c r. exists Scenario.quota_exceeded. reflexivity.
Defined.
